(** * Trace-context core of opentelemetry-go: parent resolution and the
    W3C [traceparent] propagator.

    Embedded sources:
    - [internal/trace/parent/parent.go]: [GetSpanReferenceAndLinks],
      [addLinkIfValid];
    - [propagators/trace_context.go]: [TraceContext.Inject],
      [TraceContext.Extract], [TraceContext.extract], [traceCtxRegExp];
    - [bridge/opentracing/bridge.go]: [otSpanReferencesToParentAndLinks]
      and the functions it calls, [bridgeSetTracer.tracer],
      [NewBridgeTracer], [SetWarningHandler], [SetOpenTelemetryTracer].

    Go values are embedded as follows.  A [byte] is [Byte.byte], a [string]
    is a sequence of bytes ([String.string]), [[16]byte] and [[8]byte] are
    vectors of that length, an [int] is a [Z].  A carrier is a finite map
    from keys to values.  Run-time panics (index or slice out of range) are
    explicit in the [go] monad, so that "the call returns" is a theorem and
    not a consequence of the embedding. *)

From Stdlib Require Import ZArith NArith Lia Ascii String Bool.
From Stdlib.Strings Require Import Byte.
From stdpp Require Import base option list vector strings pretty gmap.

Local Open Scope N_scope.

(** ** Bytes *)

Abbreviation byte := Byte.byte.

(** Conversion of a number to a [byte], keeping the low eight bits. *)
Definition byte_of_N (n : N) : byte :=
  match Byte.of_N (n mod 256) with
  | Some b => b
  | None => x00
  end.

(** [a & b] on bytes. *)
Definition byte_and (a b : byte) : byte :=
  byte_of_N (N.land (Byte.to_N a) (Byte.to_N b)).

(** ** [encoding/hex] of the Go standard library *)

Module hex.

Definition hextable : string := "0123456789abcdef".

(** [hextable[i]]; the index is always a nibble. *)
Definition hexdigit (i : N) : ascii :=
  match String.get (N.to_nat i) hextable with
  | Some c => c
  | None => "0"%char
  end.

(** [EncodeToString]: two digits per byte, [hextable[v>>4]] then
    [hextable[v&0x0f]]. *)
Fixpoint EncodeToString (src : list byte) : string :=
  match src with
  | [] => ""
  | v :: rest =>
      String (hexdigit (N.shiftr (Byte.to_N v) 4))
        (String (hexdigit (N.land (Byte.to_N v) 15))
           (EncodeToString rest))
  end.

(** [fromHexChar]: digits and both letter cases are accepted. *)
Definition fromHexChar (c : ascii) : option N :=
  let n := N_of_ascii c in
  if (48 <=? n) && (n <=? 57) then Some (n - 48)
  else if (97 <=? n) && (n <=? 102) then Some (n - 97 + 10)
  else if (65 <=? n) && (n <=? 70) then Some (n - 65 + 10)
  else None.

(** [DecodeString]: [None] stands for a non-nil [error]
    ([InvalidByteError] or [ErrLength]).  The bytes that Go returns next
    to an error are not represented: every caller below tests the error
    first and drops them. *)
Fixpoint DecodeString (s : string) : option (list byte) :=
  match s with
  | EmptyString => Some []
  | String _ EmptyString => None
  | String p (String q rest) =>
      match fromHexChar p, fromHexChar q with
      | Some a, Some b =>
          match DecodeString rest with
          | Some l => Some (byte_of_N (N.lor (N.shiftl a 4) b) :: l)
          | None => None
          end
      | _, _ => None
      end
  end.

End hex.

(** ** Panics *)

(** A Go computation either returns or panics. *)
Inductive go (A : Type) : Type :=
| Done (a : A)
| Panic (why : string).
Arguments Done {A} a.
Arguments Panic {A} why.

#[global] Instance go_ret : MRet go := fun A a => Done a.
#[global] Instance go_bind : MBind go := fun A B f m =>
  match m with
  | Done a => f a
  | Panic why => Panic why
  end.

(** [l[i]]: panics when [i] is out of range. *)
Definition index {A} (l : list A) (i : nat) : go A :=
  match l !! i with
  | Some a => Done a
  | None => Panic "index out of range"
  end.

(** The first [n] bytes of a string (all of it when it is shorter). *)
Fixpoint prefix (n : nat) (s : string) : string :=
  match n, s with
  | S n', String c s' => String c (prefix n' s')
  | _, _ => EmptyString
  end.

(** [s[:n]]: panics when [n] exceeds [len(s)]. *)
Definition slice_to (s : string) (n : nat) : go string :=
  if (n <=? String.length s)%nat then Done (prefix n s)
  else Panic "slice bounds out of range".

(** ** Identifier and reference model (package [otel]) *)

Abbreviation TraceID := (vec byte 16).
Abbreviation SpanID := (vec byte 8).

Record SpanReference : Type := mkSpanReference {
  sr_TraceID : TraceID;
  sr_SpanID : SpanID;
  sr_TraceFlags : byte;
}.

Definition FlagsSampled : byte := x01.

(** The Go zero values [TraceID{}], [SpanID{}], [SpanReference{}]. *)
Definition zeroTraceID : TraceID := vreplicate 16 x00.
Definition zeroSpanID : SpanID := vreplicate 8 x00.
Definition zeroSpanReference : SpanReference :=
  mkSpanReference zeroTraceID zeroSpanID x00.

Definition allZero (l : list byte) : bool := forallb (Byte.eqb x00) l.

(** Modelled from the spec: [TraceID.IsValid] is declared in package [otel],
    which is not among the sources.  "Invalid iff all 16 bytes are zero." *)
Definition TraceID_IsValid (t : TraceID) : bool := negb (allZero (vec_to_list t)).

(** Modelled from the spec: [SpanID.IsValid], as above.  "Invalid iff all 8
    bytes are zero." *)
Definition SpanID_IsValid (s : SpanID) : bool := negb (allZero (vec_to_list s)).

(** Modelled from the spec: [SpanReference.IsValid], as above.  "Valid iff
    both TraceID and SpanID are valid." *)
Definition IsValid (sr : SpanReference) : bool :=
  TraceID_IsValid (sr_TraceID sr) && SpanID_IsValid (sr_SpanID sr).

(** A list of exactly [n] elements as a vector. *)
Fixpoint vec_of_list {A} (n : nat) (l : list A) : option (vec A n) :=
  match n, l with
  | O, [] => Some [#]
  | S n', x :: l' => vcons x <$> vec_of_list n' l'
  | _, _ => None
  end.

(** Modelled from the spec: [TraceIDFromHex] is declared in package [otel].
    "Construction from external hex text must fail on: odd-length input,
    non-hex characters, or wrong fixed width (32 hex chars for TraceID)."
    [None] stands for the decode error. *)
Definition TraceIDFromHex (h : string) : option TraceID :=
  if negb (String.length h =? 32)%nat then None
  else hex.DecodeString h ≫= vec_of_list 16.

(** Modelled from the spec: [SpanIDFromHex], as above, with 16 hex chars. *)
Definition SpanIDFromHex (h : string) : option SpanID :=
  if negb (String.length h =? 16)%nat then None
  else hex.DecodeString h ≫= vec_of_list 8.

(** Modelled from the spec: the [String] methods of [TraceID] and [SpanID],
    used by the [%s] verbs of [Inject]: "traceid:32-hex-lowercase",
    "spanid:16-hex-lowercase". *)
Definition TraceID_String (t : TraceID) : string :=
  hex.EncodeToString (vec_to_list t).
Definition SpanID_String (s : SpanID) : string :=
  hex.EncodeToString (vec_to_list s).

(** ** Attributes and links (packages [label] and [otel]) *)

(** [label.Value] is a tagged union; the sources embedded here only build
    string values. *)
Inductive Value : Type :=
| STRING (s : string).

Record KeyValue : Type := mkKeyValue {
  Key : string;
  kv_Value : Value;
}.

(** [label.String(k, v)]. *)
Definition label_String (k v : string) : KeyValue := mkKeyValue k (STRING v).

Record Link : Type := mkLink {
  link_SpanReference : SpanReference;
  Attributes : list KeyValue;
}.

(** ** Ambient context *)

(** A [context.Context] is an immutable chain of key/value pairs.  Three
    keys are read or written by the embedded code; a context is embedded as
    the value (if any) visible under each of them:
    - [tracestateKey], private to package [propagators], hence only ever a
      string written by [Extract];
    - the current-span key, of which only [Span.SpanReference()] is used;
    - the remote-span-reference key. *)
Record Context : Type := mkContext {
  ctx_tracestate : option string;
  ctx_currentSpan : option SpanReference;
  ctx_remoteSpanReference : option SpanReference;
}.

(** [context.Background()]. *)
Definition Background : Context := mkContext None None None.

(** [context.WithValue(ctx, tracestateKey, state)]. *)
Definition WithTracestate (ctx : Context) (state : string) : Context :=
  mkContext (Some state) (ctx_currentSpan ctx) (ctx_remoteSpanReference ctx).

(** Modelled from the spec: [otel.ContextWithSpan], reduced to the span's
    reference.  "Setting either key returns a new context value." *)
Definition ContextWithSpan (ctx : Context) (sr : SpanReference) : Context :=
  mkContext (ctx_tracestate ctx) (Some sr) (ctx_remoteSpanReference ctx).

(** Modelled from the spec: [otel.ContextWithRemoteSpanReference]. *)
Definition ContextWithRemoteSpanReference (ctx : Context) (sr : SpanReference)
  : Context :=
  mkContext (ctx_tracestate ctx) (ctx_currentSpan ctx) (Some sr).

(** Modelled from the spec: [otel.SpanFromContext(ctx).SpanReference()].
    "Read local = current-span reference from context (Invalid if absent)";
    the absent case is the no-op span, whose reference is the zero value. *)
Definition SpanFromContext_SpanReference (ctx : Context) : SpanReference :=
  default zeroSpanReference (ctx_currentSpan ctx).

(** Modelled from the spec: [otel.RemoteSpanReferenceFromContext].  "Read
    remote = remote-span reference from context (Invalid if absent)." *)
Definition RemoteSpanReferenceFromContext (ctx : Context) : SpanReference :=
  default zeroSpanReference (ctx_remoteSpanReference ctx).

(** ** Parent resolution ([internal/trace/parent/parent.go]) *)

Module parent.

(** A nil slice and an empty slice are both the empty list; [append] is
    [++] with a singleton. *)
Definition addLinkIfValid (links : list Link) (sr : SpanReference)
    (kind : string) : list Link :=
  if negb (IsValid sr) then links
  else links ++ [mkLink sr [label_String "ignored-on-demand" kind]].

Definition GetSpanReferenceAndLinks (ctx : Context) (ignoreContext : bool)
  : SpanReference * bool * list Link :=
  let lsctx := SpanFromContext_SpanReference ctx in
  let rsctx := RemoteSpanReferenceFromContext ctx in
  if ignoreContext then
    let links := addLinkIfValid [] lsctx "current" in
    let links := addLinkIfValid links rsctx "remote" in
    (zeroSpanReference, false, links)
  else if IsValid lsctx then (lsctx, false, [])
  else if IsValid rsctx then (rsctx, true, [])
  else (zeroSpanReference, false, []).

(** The resolution as §4.2 of the specification words it, steps 1 to 6:
    with [ignoreContext], no parent and the links "built by appending, in
    order, a link for local tagged ignored-on-demand=current if local is
    valid, then a link for remote tagged ignored-on-demand=remote if remote
    is valid"; else local if valid; else remote if valid; else nothing. *)
Definition Resolve (ctx : Context) (ignoreContext : bool)
  : SpanReference * bool * list Link :=
  let local := SpanFromContext_SpanReference ctx in
  let remote := RemoteSpanReferenceFromContext ctx in
  if ignoreContext then
    (zeroSpanReference, false,
     (if IsValid local
      then [mkLink local [label_String "ignored-on-demand" "current"]]
      else []) ++
     (if IsValid remote
      then [mkLink remote [label_String "ignored-on-demand" "remote"]]
      else []))
  else if IsValid local then (local, false, [])
  else if IsValid remote then (remote, true, [])
  else (zeroSpanReference, false, []).

End parent.

(** ** The W3C Trace Context propagator ([propagators/trace_context.go]) *)

Module propagators.

Definition supportedVersion : Z := 0.
Definition maxVersion : Z := 254.
Definition traceparentHeader : string := "traceparent".
Definition tracestateHeader : string := "tracestate".

(** [otel.TextMapCarrier]: [Get] of a key that was never set is the empty
    string; [Set] replaces the value of its key. *)
Definition Get (carrier : gmap string string) (key : string) : string :=
  default "" (carrier !! key).
Definition Set_ (carrier : gmap string string) (key value : string)
  : gmap string string :=
  <[key := value]> carrier.

(** *** Regular expressions (package [regexp])

    The constructs that [traceCtxRegExp] is made of.  The expression is
    anchored at both ends and compiled without flags: it is matched against
    the whole text, letters are case-sensitive and the dot is any character
    but a newline. *)
Inductive regex : Type :=
| Char (c : ascii)
| Class (p : ascii → bool)
| Cat (r1 r2 : regex)
| Repeat (r : regex) (n : nat)
| Star (r : regex)
| Opt (r : regex)
| Capture (name : string) (r : regex).

(** [Matches r s groups]: the whole of [s] matches [r], and [groups] are
    the texts of the capturing groups of [r] in the order of their opening
    parentheses.  [Repeat], [Star] and [Opt] are used around expressions
    without capturing groups only, which is all this relation covers. *)
Inductive Matches : regex → string → list string → Prop :=
| Matches_Char c : Matches (Char c) (String c EmptyString) []
| Matches_Class p c :
    p c = true → Matches (Class p) (String c EmptyString) []
| Matches_Cat r1 r2 s1 s2 g1 g2 :
    Matches r1 s1 g1 → Matches r2 s2 g2 →
    Matches (Cat r1 r2) (s1 +:+ s2) (g1 ++ g2)
| Matches_Repeat_O r : Matches (Repeat r 0) EmptyString []
| Matches_Repeat_S r n s1 s2 :
    Matches r s1 [] → Matches (Repeat r n) s2 [] →
    Matches (Repeat r (S n)) (s1 +:+ s2) []
| Matches_Star_nil r : Matches (Star r) EmptyString []
| Matches_Star_cons r s1 s2 :
    Matches r s1 [] → Matches (Star r) s2 [] →
    Matches (Star r) (s1 +:+ s2) []
| Matches_Opt_none r : Matches (Opt r) EmptyString []
| Matches_Opt_some r s : Matches r s [] → Matches (Opt r) s []
| Matches_Capture name r s g :
    Matches r s g → Matches (Capture name r) s (s :: g).

(** The classes [[0-9a-f]] and [[a-f0-9]]. *)
Definition lowerHex (c : ascii) : bool :=
  let n := N_of_ascii c in
  (48 <=? n) && (n <=? 57) || (97 <=? n) && (n <=? 102).

(** The dot. *)
Definition anyButNewline (c : ascii) : bool := negb (Ascii.eqb c "010").

(** *** [traceCtxRegExp]

    The expression of the source, written here with a blank between its
    pieces:
<<
  ^  (?P<version>[0-9a-f]{2})  -  (?P<traceID>[a-f0-9]{32})  -
     (?P<spanID>[a-f0-9]{16})  -  (?P<traceFlags>[a-f0-9]{2})
     (?:  -  .*  )?  $
>>
*)
Definition traceCtxRegExp : regex :=
  Cat (Capture "version" (Repeat (Class lowerHex) 2))
  (Cat (Char "-")
  (Cat (Capture "traceID" (Repeat (Class lowerHex) 32))
  (Cat (Char "-")
  (Cat (Capture "spanID" (Repeat (Class lowerHex) 16))
  (Cat (Char "-")
  (Cat (Capture "traceFlags" (Repeat (Class lowerHex) 2))
       (Opt (Cat (Char "-") (Star (Class anyButNewline))))))))))%char.

(** *** [traceCtxRegExp.FindStringSubmatch]

    Every piece of the expression has a fixed width except the optional
    tail, so the match is computed by a left-to-right scan;
    [FindStringSubmatch_Matches] below relates the scan to [Matches]. *)

(** [class{n}] at the start of [s]: the text matched and what follows. *)
Fixpoint repeatClass (class : ascii → bool) (n : nat) (s : string)
  : option (string * string) :=
  match n, s with
  | O, _ => Some (EmptyString, s)
  | S n', String c s' =>
      if class c then
        '(m, rest) ← repeatClass class n' s'; Some (String c m, rest)
      else None
  | S _, EmptyString => None
  end.

(** The literal [-] at the start of [s]: what follows it. *)
Definition dash (s : string) : option string :=
  match s with
  | String c s' => if Ascii.eqb c "-" then Some s' else None
  | EmptyString => None
  end.

(** Any characters up to the end of the text (dot, star, dollar): no
    newline occurs. *)
Fixpoint dotStarEnd (s : string) : bool :=
  match s with
  | EmptyString => true
  | String c s' => anyButNewline c && dotStarEnd s'
  end.

(** The optional non-capturing tail, then the end of the text. *)
Definition optionalTail (s : string) : bool :=
  match s with
  | EmptyString => true
  | String c s' => Ascii.eqb c "-" && dotStarEnd s'
  end.

(** [traceCtxRegExp.FindStringSubmatch(h)]: nil when [h] does not match;
    otherwise the whole match followed by the text of the four capturing
    groups.  The optional tail is not a capturing group and contributes
    no element, whether it matched something or not. *)
Definition FindStringSubmatch (h : string) : list string :=
  let found :=
    '(version, s) ← repeatClass lowerHex 2 h;
    s ← dash s;
    '(traceID, s) ← repeatClass lowerHex 32 s;
    s ← dash s;
    '(spanID, s) ← repeatClass lowerHex 16 s;
    s ← dash s;
    '(traceFlags, s) ← repeatClass lowerHex 2 s;
    if optionalTail s then Some [h; version; traceID; spanID; traceFlags]
    else None in
  default [] found.

(** *** [fmt.Sprintf] *)

(** The verb [%.2x] on an integer below 256 (the only arguments it gets
    here are [supportedVersion] and a [byte]): two lowercase hex digits. *)
Definition Sprintf_02x (n : N) : string :=
  String (hex.hexdigit (N.shiftr n 4))
    (String (hex.hexdigit (N.land n 15)) EmptyString).

(** *** [Inject], [extract], [Extract]

    The source names the local span reference both [sc] and [sr] within
    each of the three functions (the declaration uses one name and the
    validity test the other); they are one variable. *)

(** [Inject] writes to the carrier; the carrier after the call is
    returned. *)
Definition Inject (ctx : Context) (carrier : gmap string string)
  : gmap string string :=
  let carrier :=
    match ctx_tracestate ctx with
    | Some state => Set_ carrier tracestateHeader state
    | None => carrier
    end in
  let sc := SpanFromContext_SpanReference ctx in
  if negb (IsValid sc) then carrier
  else
    let h :=
      Sprintf_02x (Z.to_N supportedVersion) +:+ "-" +:+
      TraceID_String (sr_TraceID sc) +:+ "-" +:+
      SpanID_String (sr_SpanID sc) +:+ "-" +:+
      Sprintf_02x (Byte.to_N (byte_and (sr_TraceFlags sc) FlagsSampled)) in
    Set_ carrier traceparentHeader h.

Definition extract (carrier : gmap string string) : go SpanReference :=
  let h := Get carrier traceparentHeader in
  if String.eqb h "" then Done zeroSpanReference else
  let matches := FindStringSubmatch h in
  if (length matches =? 0)%nat then Done zeroSpanReference else
  if (length matches <? 5)%nat then Done zeroSpanReference else
  m1 ← index matches 1;
  if negb (String.length m1 =? 2)%nat then Done zeroSpanReference else
  match hex.DecodeString m1 with
  | None => Done zeroSpanReference
  | Some ver =>
  ver0 ← index ver 0;
  let version := Z.of_N (Byte.to_N ver0) in
  if (maxVersion <? version)%Z then Done zeroSpanReference else
  if (version =? 0)%Z && negb (length matches =? 5)%nat
  then Done zeroSpanReference else
  m2 ← index matches 2;
  if negb (String.length m2 =? 32)%nat then Done zeroSpanReference else
  m2_32 ← slice_to m2 32;
  match TraceIDFromHex m2_32 with
  | None => Done zeroSpanReference
  | Some traceID =>
  m3 ← index matches 3;
  if negb (String.length m3 =? 16)%nat then Done zeroSpanReference else
  match SpanIDFromHex m3 with
  | None => Done zeroSpanReference
  | Some spanID =>
  m4 ← index matches 4;
  if negb (String.length m4 =? 2)%nat then Done zeroSpanReference else
  match hex.DecodeString m4 with
  | None => Done zeroSpanReference
  | Some opts =>
  if (length opts <? 1)%nat then Done zeroSpanReference else
  opts0 ← index opts 0;
  if (version =? 0)%Z && (2 <? Byte.to_N opts0) then Done zeroSpanReference
  else
  let sc := mkSpanReference traceID spanID (byte_and opts0 FlagsSampled) in
  if negb (IsValid sc) then Done zeroSpanReference else
  Done sc
  end end end end.

Definition Extract (ctx : Context) (carrier : gmap string string)
  : go Context :=
  let state := Get carrier tracestateHeader in
  let ctx := if String.eqb state "" then ctx else WithTracestate ctx state in
  sc ← extract carrier;
  if negb (IsValid sc) then Done ctx
  else Done (ContextWithRemoteSpanReference ctx sc).

(** [Fields]. *)
Definition Fields : list string := [traceparentHeader; tracestateHeader].

End propagators.

(** ** Vocabulary of the statements

    The definitions of this part name the shapes of headers and the
    outcomes of [Extract] that the properties speak of. *)

Import propagators.

(** Every character of [s] satisfies [p]. *)
Fixpoint allChars (p : ascii → bool) (s : string) : bool :=
  match s with
  | EmptyString => true
  | String c s' => p c && allChars p s'
  end.

(** Some character of [s] satisfies [p]. *)
Fixpoint someChar (p : ascii → bool) (s : string) : bool :=
  match s with
  | EmptyString => false
  | String c s' => p c || someChar p s'
  end.

(** The uppercase hexadecimal letters [A] to [F]. *)
Definition upperHexLetter (c : ascii) : bool :=
  let n := N_of_ascii c in (65 <=? n) && (n <=? 70).

(** A header laid out as the four dash-separated fields of the wire
    format, followed by whatever comes after the flags. *)
Definition traceparent (version traceid spanid flags tail : string) : string :=
  version +:+ "-" +:+ traceid +:+ "-" +:+ spanid +:+ "-" +:+ flags +:+ tail.

(** The field widths of the wire format: 2, 32, 16 and 2 characters. *)
Definition fieldWidths (version traceid spanid flags : string) : Prop :=
  String.length version = 2%nat ∧ String.length traceid = 32%nat ∧
  String.length spanid = 16%nat ∧ String.length flags = 2%nat.

(** A carrier whose [traceparent] field is [h]. *)
Definition carries (carrier : gmap string string) (h : string) : Prop :=
  Get carrier traceparentHeader = h.

(** [Extract] treats the [traceparent] of a carrier as absent: from every
    context it returns, and the remote span reference of the returned
    context is the one of the context it was given (none, from a context
    that has none). *)
Definition Rejected (carrier : gmap string string) : Prop :=
  ∀ ctx, ∃ ctx',
    Extract ctx carrier = Done ctx' ∧
    ctx_remoteSpanReference ctx' = ctx_remoteSpanReference ctx.

(** [Extract] accepts the [traceparent] of a carrier as the reference
    [sc]: from every context it returns a context whose remote span
    reference is [sc]. *)
Definition Accepted (carrier : gmap string string) (sc : SpanReference)
  : Prop :=
  ∀ ctx, ∃ ctx',
    Extract ctx carrier = Done ctx' ∧
    ctx_remoteSpanReference ctx' = Some sc.

(** A summary of [extract] for the proofs ([extract_matched] relates the
    two): what the source makes of the four captured groups once the
    expression has matched, its checks in their order, without the bounds
    that the match guarantees. *)
Definition fromGroups (version traceID spanID traceFlags : string)
  : SpanReference :=
  match hex.DecodeString version with
  | Some [ver0] =>
      if (maxVersion <? Z.of_N (Byte.to_N ver0))%Z then zeroSpanReference
      else
        match TraceIDFromHex traceID, SpanIDFromHex spanID,
              hex.DecodeString traceFlags with
        | Some tid, Some sid, Some [opts0] =>
            if (Z.of_N (Byte.to_N ver0) =? 0)%Z && (2 <? Byte.to_N opts0)
            then zeroSpanReference
            else
              let sc := mkSpanReference tid sid (byte_and opts0 FlagsSampled) in
              if IsValid sc then sc else zeroSpanReference
        | _, _, _ => zeroSpanReference
        end
  | _ => zeroSpanReference
  end.

(** The digit [0], and the text of [n] such digits. *)
Definition zeroDigit (c : ascii) : bool := Ascii.eqb c "0".

Fixpoint zeros (n : nat) : string :=
  match n with
  | O => EmptyString
  | S n' => String "0" (zeros n')
  end.

(** A well-formed [traceparent], after §4.4 and §6 of the specification:
    four dash-separated fields of lowercase hexadecimal digits, 2, 32, 16
    and 2 wide, then nothing or a dash-introduced tail; a version of at
    most 254; identifiers that are not all zero; for version 0, flags of at
    most 2 and nothing after them. *)
Definition WellFormed (h : string) : Prop :=
  ∃ v t s f tail ver fl,
    h = traceparent v t s f tail ∧ fieldWidths v t s f ∧
    allChars lowerHex v = true ∧ allChars lowerHex t = true ∧
    allChars lowerHex s = true ∧ allChars lowerHex f = true ∧
    (tail = "" ∨ ∃ x, tail = "-" +:+ x) ∧
    hex.DecodeString v = Some [ver] ∧ Byte.to_N ver ≤ 254 ∧
    allChars zeroDigit t = false ∧ allChars zeroDigit s = false ∧
    hex.DecodeString f = Some [fl] ∧
    (Byte.to_N ver = 0 → Byte.to_N fl ≤ 2) ∧
    (Byte.to_N ver = 0 → tail = "").

(** A header of version 0 that is well formed but for a dash-introduced
    segment after its flags. *)
Definition TrailingSegment00 (h : string) : Prop :=
  ∃ v t s f x,
    h = traceparent v t s f ("-" +:+ x) ∧ fieldWidths v t s f ∧
    hex.DecodeString v = Some [x00] ∧
    WellFormed (traceparent v t s f "").

(** ** Sample values *)

(** The reference of the example of §8: trace
    [4bf92f3577b34da6a3ce929d0e0e4736], span [00f067aa0ba902b7]. *)
Definition sampleTraceID : TraceID :=
  [# x4b; xf9; x2f; x35; x77; xb3; x4d; xa6;
     xa3; xce; x92; x9d; x0e; x0e; x47; x36].
Definition sampleSpanID : SpanID :=
  [# x00; xf0; x67; xaa; x0b; xa9; x02; xb7].
Definition sampleReference (flags : byte) : SpanReference :=
  mkSpanReference sampleTraceID sampleSpanID flags.

(** A second reference, for contexts that hold two. *)
Definition otherReference : SpanReference :=
  mkSpanReference
    [# x0a; xf7; x65; x19; x16; xcd; x43; xdd;
       x84; x48; xeb; x21; x1c; x80; x31; x9c]
    [# xb7; xad; x6b; x71; x69; x20; x33; x31] x01.

(** A carrier holding nothing but the given [traceparent]. *)
Definition carrierOf (h : string) : gmap string string :=
  {[ traceparentHeader := h ]}.

(** ** The OpenTracing bridge ([bridge/opentracing/bridge.go])

    The parts of the bridge that are embedded: the split of OpenTracing
    span references into a parent and links, and the warn-once access to
    the OpenTelemetry tracer.  The types of package opentracing-go that
    they use are embedded with them. *)

Module opentracing.

(** [ot.SpanReferenceType] is an [int]; [ChildOfRef] and [FollowsFromRef]
    are its two named values, 0 and 1. *)
Definition ChildOfRef : Z := 0.
Definition FollowsFromRef : Z := 1.

(** [fmt.Sprintf] with the verb [%d] on an [int], after the text
    [unknown-]: the decimal digits, with a minus sign when negative. *)
Definition Sprintf_unknown_d (n : Z) : string := "unknown-" +:+ pretty n.

Definition otSpanReferenceTypeToString (refType : Z) : string :=
  if (refType =? ChildOfRef)%Z then "extra-child-of"
  else if (refType =? FollowsFromRef)%Z then "follows-from-ref"
  else Sprintf_unknown_d refType.

Definition otSpanReferenceTypeToOTelLinkAttributes (refType : Z)
  : list KeyValue :=
  [label_String "ot-span-reference-type" (otSpanReferenceTypeToString refType)].

Section References.

(** [baggage.Map], of package [internal/baggage]: the functions embedded
    here only carry its values along. *)
Variable BaggageMap : Type.

Record bridgeSpanReference : Type := mkBridgeSpanReference {
  baggageItems : BaggageMap;
  otelSpanReference : SpanReference;
}.

(** An [ot.SpanContext] interface value, as the type assertion to a
    pointer to [bridgeSpanReference] tells them apart: a span context of
    the bridge, or anything else (a foreign implementation, or nil).  The
    bridge makes its span contexts with [newBridgeSpanReference] and in
    [Extract], as pointers to fresh values: none is a nil pointer. *)
Inductive SpanContext : Type :=
| bridgeContext (bridgeSC : bridgeSpanReference)
| foreignContext.


(** [ot.SpanReference]. *)
Record otSpanReference : Type := mkOtSpanReference {
  ref_Type : Z;
  ReferencedContext : SpanContext;
}.

Definition otSpanReferenceToOTelLink (bridgeSC : bridgeSpanReference)
    (refType : Z) : Link :=
  mkLink (otelSpanReference bridgeSC)
    (otSpanReferenceTypeToOTelLinkAttributes refType).

(** The body of the loop over [references], on the pair of its variables
    [parent] and [links]. *)
Definition loopBody
    (state : option bridgeSpanReference * list Link)
    (reference : otSpanReference)
  : option bridgeSpanReference * list Link :=
  let '(parent, links) := state in
  match ReferencedContext reference with
  | foreignContext => (parent, links)
  | bridgeContext bridgeSC =>
      match parent with
      | Some _ =>
          (parent,
           links ++ [otSpanReferenceToOTelLink bridgeSC (ref_Type reference)])
      | None =>
          if (ref_Type reference =? ChildOfRef)%Z
          then (Some bridgeSC, links)
          else
            (parent,
             links ++ [otSpanReferenceToOTelLink bridgeSC (ref_Type reference)])
      end
  end.

(** [parent] is nil and [links] is empty before the loop. *)
Definition otSpanReferencesToParentAndLinks (references : list otSpanReference)
  : option bridgeSpanReference * list Link :=
  fold_left loopBody references (None, []).

(** The references to span contexts of the bridge among [references],
    each with its type, in their order. *)
Definition bridgeReferences (references : list otSpanReference)
  : list (Z * bridgeSpanReference) :=
  omap (λ reference,
          match ReferencedContext reference with
          | bridgeContext bridgeSC => Some (ref_Type reference, bridgeSC)
          | foreignContext => None
          end) references.

(** The split as the comments of the source describe it: the first
    child-of reference is the parent, every other reference is a link. *)
Definition isChildOf (r : Z * bridgeSpanReference) : bool :=
  (r.1 =? ChildOfRef)%Z.

Fixpoint dropFirst {A} (p : A → bool) (l : list A) : list A :=
  match l with
  | [] => []
  | x :: l' => if p x then l' else x :: dropFirst p l'
  end.

Definition linkOf (r : Z * bridgeSpanReference) : Link :=
  otSpanReferenceToOTelLink r.2 r.1.


End References.

Section Tracer.

(** [otel.Tracer] values, and the functions that serve as
    [BridgeWarningHandler]; a nil handler is [None]. *)
Variable Tracer : Type.
Variable Handler : Type.

(** [sync.Once] is embedded as the flag that tells whether [Do] has run
    (the flag is set even when the function given to [Do] panics). *)
Record bridgeSetTracer : Type := mkBridgeSetTracer {
  isSet : bool;
  otelTracer : Tracer;
  warningHandler : option Handler;
  warnOnce : bool;
}.

Definition tracerNotSetWarning : string :=
  "The OpenTelemetry tracer is not set, default no-op tracer is used! Call SetOpenTelemetryTracer to set it up." +:+
  String "010" EmptyString.

(** [bridgeSetTracer.tracer]: the state after the call, the calls of the
    warning handler made (handler and message), and the tracer returned or
    the panic of calling a nil handler. *)
Definition tracer (s : bridgeSetTracer)
  : bridgeSetTracer * list (Handler * string) * go Tracer :=
  if negb (isSet s) then
    if warnOnce s then (s, [], Done (otelTracer s))
    else
      let s' := mkBridgeSetTracer (isSet s) (otelTracer s)
                  (warningHandler s) true in
      match warningHandler s with
      | Some handler => (s', [(handler, tracerNotSetWarning)], Done (otelTracer s))
      | None => (s', [], Panic "call of nil func")
      end
  else (s, [], Done (otelTracer s)).

(** [BridgeTracer], without its propagator field, which the functions
    embedded here do not touch. *)
Record BridgeTracer : Type := mkBridgeTracer {
  setTracer : bridgeSetTracer;
  bt_warningHandler : option Handler;
  bt_warnOnce : bool;
}.

(** [NewBridgeTracer], given [noop.Tracer] and the handler that does
    nothing.  The literal of the source leaves the handler of [setTracer]
    at its zero value, nil. *)
Definition NewBridgeTracer (noopTracer : Tracer) (doNothing : Handler)
  : BridgeTracer :=
  mkBridgeTracer (mkBridgeSetTracer false noopTracer None false)
    (Some doNothing) false.

Definition SetWarningHandler (t : BridgeTracer) (handler : option Handler)
  : BridgeTracer :=
  mkBridgeTracer
    (mkBridgeSetTracer (isSet (setTracer t)) (otelTracer (setTracer t))
       handler (warnOnce (setTracer t)))
    handler (bt_warnOnce t).

Definition SetOpenTelemetryTracer (t : BridgeTracer) (tr : Tracer)
  : BridgeTracer :=
  mkBridgeTracer
    (mkBridgeSetTracer true tr (warningHandler (setTracer t))
       (warnOnce (setTracer t)))
    (bt_warningHandler t) (bt_warnOnce t).

(** The calls a user of the bridge makes that reach [setTracer]:
    a call that obtains the tracer (as [StartSpan] does), and the two
    setters. *)
Inductive call : Type :=
| callTracer
| callSetOpenTelemetryTracer (tr : Tracer)
| callSetWarningHandler (handler : option Handler).

(** One call: the bridge after it and the handler calls it made.  A panic
    of [tracer] is taken as recovered by the caller. *)
Definition step (t : BridgeTracer) (c : call)
  : BridgeTracer * list (Handler * string) :=
  match c with
  | callTracer =>
      let '(s, warned, _) := tracer (setTracer t) in
      (mkBridgeTracer s (bt_warningHandler t) (bt_warnOnce t), warned)
  | callSetOpenTelemetryTracer tr => (SetOpenTelemetryTracer t tr, [])
  | callSetWarningHandler handler => (SetWarningHandler t handler, [])
  end.

(** A sequence of calls: the bridge after them and all handler calls
    made, in order. *)
Fixpoint run (t : BridgeTracer) (calls : list call)
  : BridgeTracer * list (Handler * string) :=
  match calls with
  | [] => (t, [])
  | c :: calls' =>
      let '(t', warned) := step t c in
      let '(t'', warned') := run t' calls' in
      (t'', warned ++ warned')
  end.

End Tracer.

End opentracing.

(** ** Vocabulary of the further properties *)

(** The newline character. *)
Definition isNewline (c : ascii) : bool := Ascii.eqb c "010".

(** The headers that [Extract] takes a reference from: four
    dash-separated fields of lowercase hexadecimal digits, 2, 32, 16 and 2
    wide; then nothing, or a dash and any text without a newline; a version
    of at most 254; identifiers that are not all zero; for version 0, flags
    of at most 2. *)
Definition Acceptable (h : string) : Prop :=
  ∃ v t s f tail ver fl,
    h = traceparent v t s f tail ∧ fieldWidths v t s f ∧
    allChars lowerHex v = true ∧ allChars lowerHex t = true ∧
    allChars lowerHex s = true ∧ allChars lowerHex f = true ∧
    (tail = "" ∨ ∃ x, tail = "-" +:+ x ∧ someChar isNewline x = false) ∧
    hex.DecodeString v = Some [ver] ∧ Byte.to_N ver ≤ 254 ∧
    allChars zeroDigit t = false ∧ allChars zeroDigit s = false ∧
    hex.DecodeString f = Some [fl] ∧
    (Byte.to_N ver = 0 → Byte.to_N fl ≤ 2).

(** The tracer that the last [SetOpenTelemetryTracer] among the calls
    has given, or [current] when there is none among them. *)
Fixpoint lastTracerSet {Tracer Handler : Type}
    (calls : list (opentracing.call Tracer Handler)) (current : Tracer)
  : Tracer :=
  match calls with
  | [] => current
  | opentracing.callSetOpenTelemetryTracer _ _ tr :: calls' =>
      lastTracerSet calls' tr
  | _ :: calls' => lastTracerSet calls' current
  end.

(** * Properties *)

(** ** Strings *)

Section Strings.

Lemma app_String c s t : String c s +:+ t = String c (s +:+ t).
Proof. reflexivity. Qed.

Lemma app_empty s : "" +:+ s = s.
Proof. reflexivity. Qed.

Lemma length_app s t :
  String.length (s +:+ t) = (String.length s + String.length t)%nat.
Proof.
  induction s as [|c s IH]; [done|].
  rewrite app_String. simpl. by rewrite IH.
Qed.

Lemma app_inj_length s1 s2 r1 r2 :
  String.length s1 = String.length s2 →
  s1 +:+ r1 = s2 +:+ r2 → s1 = s2 ∧ r1 = r2.
Proof.
  revert s2; induction s1 as [|c s1 IH]; intros [|d s2]; simpl; try done.
  intros [= Hlen]. rewrite !app_String. intros [= -> Heq].
  destruct (IH _ Hlen Heq) as [-> ->]. done.
Qed.

Lemma allChars_app p s t :
  allChars p (s +:+ t) = allChars p s && allChars p t.
Proof.
  induction s as [|c s IH]; [done|].
  rewrite app_String. simpl. rewrite IH. by rewrite andb_assoc.
Qed.

Lemma someChar_allChars p q s :
  (∀ c, p c = true → q c = false) →
  someChar p s = true → allChars q s = false.
Proof.
  intros Hpq. induction s as [|c s IH]; simpl; [done|].
  intros [Hc | Hs]%orb_true_iff.
  - by rewrite (Hpq _ Hc).
  - rewrite (IH Hs). apply andb_false_r.
Qed.

Lemma prefix_length s : prefix (String.length s) s = s.
Proof. induction s as [|c s IH]; simpl; [done|]. by rewrite IH. Qed.

Lemma slice_to_length s n : String.length s = n → slice_to s n = Done s.
Proof.
  intros <-. unfold slice_to. rewrite Nat.leb_refl. by rewrite prefix_length.
Qed.

End Strings.

(** ** Hexadecimal text *)

Section Hex.

(** The two digits that [EncodeToString] writes for a byte decode to its
    nibbles, which recombine to the byte; both are lowercase. *)
Lemma hexdigits_of_byte (b : byte) :
  let hi := hex.hexdigit (N.shiftr (Byte.to_N b) 4) in
  let lo := hex.hexdigit (N.land (Byte.to_N b) 15) in
  hex.fromHexChar hi = Some (N.shiftr (Byte.to_N b) 4) ∧
  hex.fromHexChar lo = Some (N.land (Byte.to_N b) 15) ∧
  byte_of_N (N.lor (N.shiftl (N.shiftr (Byte.to_N b) 4) 4)
               (N.land (Byte.to_N b) 15)) = b ∧
  lowerHex hi = true ∧ lowerHex lo = true.
Proof. destruct b; vm_compute; auto. Qed.

Lemma DecodeString_EncodeToString (l : list byte) :
  hex.DecodeString (hex.EncodeToString l) = Some l.
Proof.
  induction l as [|b l IH]; [done|].
  destruct (hexdigits_of_byte b) as (Hhi & Hlo & Hb & _).
  cbn [hex.EncodeToString hex.DecodeString].
  by rewrite Hhi, Hlo, IH, Hb.
Qed.

Lemma length_EncodeToString (l : list byte) :
  String.length (hex.EncodeToString l) = (2 * length l)%nat.
Proof.
  induction l as [|b l IH]; [done|].
  cbn [hex.EncodeToString String.length length]. rewrite IH. lia.
Qed.

Lemma lowerHex_EncodeToString (l : list byte) :
  allChars lowerHex (hex.EncodeToString l) = true.
Proof.
  induction l as [|b l IH]; [done|].
  destruct (hexdigits_of_byte b) as (_ & _ & _ & Hhi & Hlo).
  cbn [hex.EncodeToString allChars]. by rewrite Hhi, Hlo, IH.
Qed.

(** A successful decoding yields one byte per two characters. *)
Lemma length_DecodeString (s : string) (l : list byte) :
  hex.DecodeString s = Some l → String.length s = (2 * length l)%nat.
Proof.
  assert (∀ n s l, (String.length s < n)%nat →
            hex.DecodeString s = Some l →
            String.length s = (2 * length l)%nat) as Hind.
  { clear s l. intros n. induction n as [|n IH]; intros s l Hn; [lia|].
    destruct s as [|p [|q rest]]; cbn [hex.DecodeString].
    - by intros [= <-].
    - done.
    - destruct (hex.fromHexChar p), (hex.fromHexChar q); try done.
      destruct (hex.DecodeString rest) as [l'|] eqn:E; [|done].
      intros [= <-]. cbn [String.length length] in *.
      rewrite (IH rest l'); [lia | lia | done]. }
  apply (Hind (S (String.length s))). lia.
Qed.

Lemma DecodeString_2 (s : string) (l : list byte) :
  String.length s = 2%nat → hex.DecodeString s = Some l → ∃ b, l = [b].
Proof.
  intros Hs Hl. apply length_DecodeString in Hl. rewrite Hs in Hl.
  destruct l as [|b [|b' l]]; simpl in Hl; try lia. by exists b.
Qed.

Lemma vec_of_list_to_list {A n} (v : vec A n) :
  vec_of_list n (vec_to_list v) = Some v.
Proof. induction v as [|x n v IH]; [done|]. cbn. by rewrite IH. Qed.

Lemma TraceIDFromHex_String (t : TraceID) :
  TraceIDFromHex (TraceID_String t) = Some t.
Proof.
  unfold TraceIDFromHex, TraceID_String.
  rewrite length_EncodeToString, length_vec_to_list. cbn [Nat.mul Nat.add Nat.eqb negb].
  rewrite DecodeString_EncodeToString. cbn [mbind option_bind].
  apply vec_of_list_to_list.
Qed.

Lemma SpanIDFromHex_String (s : SpanID) :
  SpanIDFromHex (SpanID_String s) = Some s.
Proof.
  unfold SpanIDFromHex, SpanID_String.
  rewrite length_EncodeToString, length_vec_to_list. cbn [Nat.mul Nat.add Nat.eqb negb].
  rewrite DecodeString_EncodeToString. cbn [mbind option_bind].
  apply vec_of_list_to_list.
Qed.

(** [%.2x] of a byte is its hexadecimal encoding. *)
Lemma Sprintf_02x_byte (b : byte) :
  Sprintf_02x (Byte.to_N b) = hex.EncodeToString [b].
Proof. reflexivity. Qed.

Lemma upperHexLetter_not_lowerHex c :
  upperHexLetter c = true → lowerHex c = false.
Proof.
  unfold upperHexLetter, lowerHex. cbv zeta.
  generalize (N_of_ascii c); intros n.
  rewrite andb_true_iff, !N.leb_le. intros [H1 H2].
  apply orb_false_iff; split; apply andb_false_iff.
  - right. apply N.leb_gt. lia.
  - left. apply N.leb_gt. lia.
Qed.

End Hex.

(** ** The match of [traceCtxRegExp] *)

Section Match.

Lemma repeatClass_app p n m rest :
  String.length m = n → allChars p m = true →
  repeatClass p n (m +:+ rest) = Some (m, rest).
Proof.
  revert n; induction m as [|c m IH]; intros n <-; simpl; [done|].
  intros [Hc Hm]%andb_true_iff. by rewrite Hc, (IH _ eq_refl Hm).
Qed.

Lemma repeatClass_inv p n s m rest :
  repeatClass p n s = Some (m, rest) →
  s = m +:+ rest ∧ String.length m = n ∧ allChars p m = true.
Proof.
  revert s m; induction n as [|n IH]; intros s m; simpl.
  - by intros [= <- <-].
  - destruct s as [|c s]; [done|]. destruct (p c) eqn:Hc; [|done].
    destruct (repeatClass p n s) as [[m' rest']|] eqn:E; [|done].
    cbn. intros [= <- <-]. destruct (IH _ _ E) as (-> & <- & Hm).
    simpl. by rewrite Hc, Hm.
Qed.

Lemma dash_inv s rest : dash s = Some rest → s = "-" +:+ rest.
Proof.
  destruct s as [|c s]; simpl; [done|].
  destruct (Ascii.eqb_spec c "-") as [->|]; [|done]. by intros [= ->].
Qed.

Lemma dash_app rest : dash ("-" +:+ rest) = Some rest.
Proof. reflexivity. Qed.

(** A field of known width at the head of a text is read as a whole or
    not at all. *)
Lemma repeatClass_field p n m rest :
  String.length m = n →
  repeatClass p n (m +:+ rest) =
    if allChars p m then Some (m, rest) else None.
Proof.
  intros Hm. destruct (allChars p m) eqn:E; [by apply repeatClass_app|].
  destruct (repeatClass p n _) as [[m' r]|] eqn:E'; [|done].
  apply repeatClass_inv in E' as (E' & Hm' & Hl).
  apply app_inj_length in E' as [-> _]; congruence.
Qed.

(** One field and, if any, the dash after it. *)
Ltac scan_field H :=
  rewrite (repeatClass_field _ _ _ _ H);
  destruct (allChars lowerHex _); [|done];
  cbn [mbind option_bind andb]; rewrite ?dash_app; cbn [mbind option_bind].

(** The expression matches exactly the headers laid out as four lowercase
    hexadecimal fields of the right widths and an optional tail, and then
    the submatches are the header and the four fields. *)
Lemma FindStringSubmatch_traceparent v t s f tail :
  fieldWidths v t s f →
  FindStringSubmatch (traceparent v t s f tail) =
    if allChars lowerHex v && allChars lowerHex t && allChars lowerHex s &&
       allChars lowerHex f && optionalTail tail
    then [traceparent v t s f tail; v; t; s; f] else [].
Proof.
  intros (Hv & Ht & Hs & Hf). unfold FindStringSubmatch, traceparent.
  scan_field Hv. scan_field Ht. scan_field Hs. scan_field Hf.
  by destruct (optionalTail tail).
Qed.

End Match.

Section MatchInversion.

Lemma FindStringSubmatch_inv h :
  FindStringSubmatch h = [] ∨
  ∃ v t s f tail,
    h = traceparent v t s f tail ∧ fieldWidths v t s f ∧
    allChars lowerHex v = true ∧ allChars lowerHex t = true ∧
    allChars lowerHex s = true ∧ allChars lowerHex f = true ∧
    optionalTail tail = true ∧
    FindStringSubmatch h = [h; v; t; s; f].
Proof.
  unfold FindStringSubmatch.
  destruct (repeatClass lowerHex 2 h) as [[v r1]|] eqn:E1; [|by left].
  cbn [mbind option_bind].
  destruct (dash r1) as [r2|] eqn:D1; [|by left]. cbn [mbind option_bind].
  destruct (repeatClass lowerHex 32 r2) as [[t r3]|] eqn:E2; [|by left].
  cbn [mbind option_bind].
  destruct (dash r3) as [r4|] eqn:D2; [|by left]. cbn [mbind option_bind].
  destruct (repeatClass lowerHex 16 r4) as [[s r5]|] eqn:E3; [|by left].
  cbn [mbind option_bind].
  destruct (dash r5) as [r6|] eqn:D3; [|by left]. cbn [mbind option_bind].
  destruct (repeatClass lowerHex 2 r6) as [[f tail]|] eqn:E4; [|by left].
  cbn [mbind option_bind].
  destruct (optionalTail tail) eqn:Etail; [|by left].
  right. exists v, t, s, f, tail.
  apply repeatClass_inv in E1 as (-> & Hv & Hv').
  apply dash_inv in D1 as ->.
  apply repeatClass_inv in E2 as (-> & Ht & Ht').
  apply dash_inv in D2 as ->.
  apply repeatClass_inv in E3 as (-> & Hs & Hs').
  apply dash_inv in D3 as ->.
  apply repeatClass_inv in E4 as (-> & Hf & Hf').
  unfold traceparent, fieldWidths. done.
Qed.

(** Two layouts of one header with the widths of the wire format have the
    same fields. *)
Lemma traceparent_inj v t s f tail v' t' s' f' tail' :
  fieldWidths v t s f → fieldWidths v' t' s' f' →
  traceparent v t s f tail = traceparent v' t' s' f' tail' →
  v = v' ∧ t = t' ∧ s = s' ∧ f = f' ∧ tail = tail'.
Proof.
  intros (Hv & Ht & Hs & Hf) (Hv' & Ht' & Hs' & Hf'). unfold traceparent.
  intros H.
  apply app_inj_length in H as [-> H]; [|congruence].
  apply (app_inj_length "-" "-") in H as [_ H]; [|done].
  apply app_inj_length in H as [-> H]; [|congruence].
  apply (app_inj_length "-" "-") in H as [_ H]; [|done].
  apply app_inj_length in H as [-> H]; [|congruence].
  apply (app_inj_length "-" "-") in H as [_ H]; [|done].
  apply app_inj_length in H as [-> H]; [|congruence].
  done.
Qed.

End MatchInversion.

(** ** The scan implements the expression *)

Section Regexp.

Lemma Matches_Char_inv c s g :
  Matches (Char c) s g → s = String c "" ∧ g = [].
Proof. by inversion 1. Qed.

Lemma Matches_Repeat_Class p n s g :
  Matches (Repeat (Class p) n) s g ↔
  g = [] ∧ String.length s = n ∧ allChars p s = true.
Proof.
  split.
  - revert s g; induction n as [|n IH]; intros s g H; inversion H; subst.
    + done.
    + match goal with
      | H1 : Matches (Class p) _ _, H2 : Matches (Repeat _ n) _ _ |- _ =>
          inversion H1; subst; apply IH in H2 as (_ & <- & Hs)
      end.
      rewrite app_String, app_empty. simpl. split_and!; try done.
      by apply andb_true_iff.
  - intros (-> & <- & Hs). induction s as [|c s IH]; [constructor|].
    simpl in Hs. apply andb_true_iff in Hs as [Hc Hs].
    change (String c s) with (String c "" +:+ s).
    constructor; [by constructor | by apply IH].
Qed.

Lemma Matches_Star_Class p s g :
  Matches (Star (Class p)) s g ↔ g = [] ∧ allChars p s = true.
Proof.
  split.
  - intros H. remember (Star (Class p)) as r eqn:Er.
    induction H; try discriminate Er; [done|].
    injection Er as ->. destruct (IHMatches2 eq_refl) as [_ Hs].
    match goal with H1 : Matches (Class p) _ _ |- _ => inversion H1; subst end.
    rewrite app_String, app_empty. simpl. split; [done|].
    by apply andb_true_iff.
  - intros [-> Hs]. induction s as [|c s IH]; [constructor|].
    simpl in Hs. apply andb_true_iff in Hs as [Hc Hs].
    change (String c s) with (String c "" +:+ s).
    constructor; [by constructor | by apply IH].
Qed.

Lemma dotStarEnd_allChars s : dotStarEnd s = allChars anyButNewline s.
Proof. induction s as [|c s IH]; simpl; [done|]. by rewrite IH. Qed.

(** The optional tail of the expression. *)
Lemma Matches_tail s g :
  Matches (Opt (Cat (Char "-") (Star (Class anyButNewline)))) s g ↔
  g = [] ∧ optionalTail s = true.
Proof.
  split.
  - inversion 1; subst; [done|].
    match goal with H1 : Matches (Cat _ _) _ _ |- _ => inversion H1; subst end.
    match goal with
    | H1 : Matches (Char _) _ _, H2 : Matches (Star _) _ _ |- _ =>
        apply Matches_Char_inv in H1 as [-> ->];
        apply Matches_Star_Class in H2 as [-> Hs]
    end.
    split; [done|]. rewrite app_String, app_empty. simpl.
    by rewrite dotStarEnd_allChars.
  - intros [-> Hs]. destruct s as [|c s]; [constructor|].
    simpl in Hs. apply andb_true_iff in Hs as [Hc Hs].
    apply Ascii.eqb_eq in Hc as ->. rewrite dotStarEnd_allChars in Hs.
    constructor. change (String "-" s) with (String "-" "" +:+ s).
    change (@nil string) with (@nil string ++ []).
    constructor; [constructor | by apply Matches_Star_Class].
Qed.

(** The texts that match [traceCtxRegExp], with their groups. *)
Lemma Matches_traceCtxRegExp h groups :
  Matches traceCtxRegExp h groups ↔
  ∃ v t s f tail,
    groups = [v; t; s; f] ∧ h = traceparent v t s f tail ∧
    fieldWidths v t s f ∧
    allChars lowerHex v = true ∧ allChars lowerHex t = true ∧
    allChars lowerHex s = true ∧ allChars lowerHex f = true ∧
    optionalTail tail = true.
Proof.
  unfold traceCtxRegExp. split.
  - intros H.
    repeat match goal with
    | H : Matches (Cat _ _) _ _ |- _ => inversion H; clear H; subst
    | H : Matches (Capture _ _) _ _ |- _ => inversion H; clear H; subst
    | H : Matches (Char _) _ _ |- _ => apply Matches_Char_inv in H as [-> ->]
    | H : Matches (Repeat (Class _) _) _ _ |- _ =>
        apply Matches_Repeat_Class in H as (-> & ? & ?)
    | H : Matches (Opt _) _ _ |- _ => apply Matches_tail in H as [-> ?]
    end.
    eexists _, _, _, _, _. split; [reflexivity|]. by repeat split.
  - intros (v & t & s & f & tail & -> & -> & (Hv & Ht & Hs & Hf)
            & Hv' & Ht' & Hs' & Hf' & Htail).
    unfold traceparent.
    change [v; t; s; f] with ([v] ++ [] ++ [t] ++ [] ++ [s] ++ [] ++ [f] ++ []).
    repeat first
      [ apply Matches_Cat | apply Matches_Capture | apply Matches_Char
      | by apply Matches_Repeat_Class | by apply Matches_tail ].
Qed.

(** [FindStringSubmatch] returns the header and the groups of a match of
    [traceCtxRegExp], and nil exactly when there is no match. *)
Lemma FindStringSubmatch_Matches h :
  (∀ groups,
     Matches traceCtxRegExp h groups ↔ FindStringSubmatch h = h :: groups) ∧
  (FindStringSubmatch h = [] ↔ ∀ groups, ¬ Matches traceCtxRegExp h groups).
Proof.
  assert (∀ groups,
     Matches traceCtxRegExp h groups ↔ FindStringSubmatch h = h :: groups)
    as Hiff.
  { intros groups. rewrite Matches_traceCtxRegExp. split.
    - intros (v & t & s & f & tail & -> & -> & Hw & Hv & Ht & Hs & Hf & Htl).
      rewrite (FindStringSubmatch_traceparent _ _ _ _ _ Hw).
      by rewrite Hv, Ht, Hs, Hf, Htl.
    - intros H.
      destruct (FindStringSubmatch_inv h)
        as [E | (v & t & s & f & tail & Hh & Hw & Hv & Ht & Hs & Hf & Htl & E)];
        rewrite E in H; [done|].
      injection H as <-. by exists v, t, s, f, tail. }
  split; [done|]. split.
  - intros E groups Hm%Hiff. by rewrite E in Hm.
  - intros Hno.
    destruct (FindStringSubmatch_inv h)
      as [E | (v & t & s & f & tail & _ & _ & _ & _ & _ & _ & _ & E)];
      [done|].
    by destruct (Hno [v; t; s; f]); apply Hiff.
Qed.

End Regexp.

(** ** [extract] and [Extract] *)

Section Extract.

Lemma IsValid_zeroSpanReference : IsValid zeroSpanReference = false.
Proof. reflexivity. Qed.

(** [fromGroups] gives a valid reference or the zero value. *)
Lemma fromGroups_valid_or_zero v t s f :
  fromGroups v t s f = zeroSpanReference ∨ IsValid (fromGroups v t s f) = true.
Proof.
  unfold fromGroups.
  destruct (hex.DecodeString v) as [[|ver0 [|]]|]; auto.
  destruct (_ <? _)%Z; auto.
  destruct (TraceIDFromHex t); auto. destruct (SpanIDFromHex s); auto.
  destruct (hex.DecodeString f) as [[|opts0 [|]]|]; auto.
  destruct (_ && _); auto.
  cbv zeta. destruct (IsValid _) eqn:E; auto.
Qed.

(** Without a match [extract] returns the zero value. *)
Lemma extract_unmatched carrier :
  FindStringSubmatch (Get carrier traceparentHeader) = [] →
  extract carrier = Done zeroSpanReference.
Proof.
  intros H. unfold extract. cbv zeta. rewrite H.
  by destruct (String.eqb _ _).
Qed.

(** After a match [extract] returns what [fromGroups] makes of the
    groups: no index or slice is out of range. *)
Lemma extract_matched carrier v t s f :
  fieldWidths v t s f →
  FindStringSubmatch (Get carrier traceparentHeader) =
    [Get carrier traceparentHeader; v; t; s; f] →
  extract carrier = Done (fromGroups v t s f).
Proof.
  intros (Hv & Ht & Hs & Hf) H. unfold extract, fromGroups. cbv zeta.
  destruct (String.eqb_spec (Get carrier traceparentHeader) "") as [E|_].
  { rewrite E in H. discriminate H. }
  rewrite H. cbn [length Nat.eqb Nat.ltb Nat.leb index lookup list_lookup
                   mbind go_bind].
  rewrite Hv, Ht, Hs, Hf. cbn [Nat.eqb negb].
  destruct (hex.DecodeString v) as [ver|] eqn:Ever; [|done].
  destruct (DecodeString_2 _ _ Hv Ever) as [ver0 ->].
  cbn [index lookup list_lookup mbind go_bind].
  destruct (_ <? _)%Z; [done|]. rewrite andb_false_r.
  rewrite (slice_to_length _ _ Ht). cbn [mbind go_bind].
  destruct (TraceIDFromHex t) as [tid|]; [|done].
  destruct (SpanIDFromHex s) as [sid|]; [|done].
  destruct (hex.DecodeString f) as [opts|] eqn:Eopts; [|done].
  destruct (DecodeString_2 _ _ Hf Eopts) as [opts0 ->].
  cbn [length Nat.ltb Nat.leb index lookup list_lookup mbind go_bind].
  destruct (_ && _); [done|].
  by destruct (IsValid _).
Qed.

(** [extract] returns either what [fromGroups] makes of the fields of a
    header that matches, or the zero value. *)
Lemma extract_cases carrier :
  extract carrier = Done zeroSpanReference ∨
  ∃ v t s f tail,
    Get carrier traceparentHeader = traceparent v t s f tail ∧
    fieldWidths v t s f ∧
    allChars lowerHex v = true ∧ allChars lowerHex t = true ∧
    allChars lowerHex s = true ∧ allChars lowerHex f = true ∧
    optionalTail tail = true ∧
    extract carrier = Done (fromGroups v t s f).
Proof.
  destruct (FindStringSubmatch_inv (Get carrier traceparentHeader))
    as [H | (v & t & s & f & tail & Hh & Hw & Hv & Ht & Hs & Hf & Htail & H)].
  - left. by apply extract_unmatched.
  - right. exists v, t, s, f, tail. do 7 (split; [done|]).
    by apply extract_matched.
Qed.

(** [Extract] returns whenever [extract] does; the remote reference is set
    exactly when [extract] gave a valid reference. *)
Lemma Extract_of_extract ctx carrier sc :
  extract carrier = Done sc →
  Extract ctx carrier =
    Done (let ctx1 :=
            if String.eqb (Get carrier tracestateHeader) "" then ctx
            else WithTracestate ctx (Get carrier tracestateHeader) in
          if IsValid sc then ContextWithRemoteSpanReference ctx1 sc
          else ctx1).
Proof.
  intros H. unfold Extract. cbv zeta. rewrite H. cbn [mbind go_bind].
  by destruct (IsValid sc).
Qed.

Lemma Rejected_of_extract carrier :
  extract carrier = Done zeroSpanReference → Rejected carrier.
Proof.
  intros H ctx. rewrite (Extract_of_extract _ _ _ H).
  rewrite IsValid_zeroSpanReference. cbv zeta.
  eexists; split; [done|]. by destruct (String.eqb _ _).
Qed.

Lemma Accepted_of_extract carrier sc :
  extract carrier = Done sc → IsValid sc = true → Accepted carrier sc.
Proof.
  intros H Hsc ctx. rewrite (Extract_of_extract _ _ _ H), Hsc. cbv zeta.
  eexists; split; done.
Qed.

(** A header that is not rejected has the layout of the wire format, and
    its fields give a valid reference. *)
Lemma not_Rejected_inv carrier :
  Rejected carrier ∨
  ∃ v t s f tail,
    Get carrier traceparentHeader = traceparent v t s f tail ∧
    fieldWidths v t s f ∧
    allChars lowerHex v = true ∧ allChars lowerHex t = true ∧
    allChars lowerHex s = true ∧ allChars lowerHex f = true ∧
    optionalTail tail = true ∧
    IsValid (fromGroups v t s f) = true ∧
    Accepted carrier (fromGroups v t s f).
Proof.
  destruct (extract_cases carrier)
    as [H | (v & t & s & f & tail & Hh & Hw & Hv & Ht & Hs & Hf & Htail & H)].
  - left. by apply Rejected_of_extract.
  - destruct (fromGroups_valid_or_zero v t s f) as [E|E].
    + left. apply Rejected_of_extract. by rewrite H, E.
    + right. exists v, t, s, f, tail. do 8 (split; [done|]).
      by apply Accepted_of_extract.
Qed.

End Extract.

(** ** What a valid result of [fromGroups] tells about the groups *)

Section Groups.

Lemma fromGroups_valid_inv v t s f :
  IsValid (fromGroups v t s f) = true →
  ∃ ver0 tid sid opts0,
    hex.DecodeString v = Some [ver0] ∧ Byte.to_N ver0 ≤ 254 ∧
    TraceIDFromHex t = Some tid ∧ SpanIDFromHex s = Some sid ∧
    hex.DecodeString f = Some [opts0] ∧
    (Byte.to_N ver0 = 0 → Byte.to_N opts0 ≤ 2) ∧
    TraceID_IsValid tid = true ∧ SpanID_IsValid sid = true ∧
    fromGroups v t s f =
      mkSpanReference tid sid (byte_and opts0 FlagsSampled).
Proof.
  unfold fromGroups.
  destruct (hex.DecodeString v) as [[|ver0 [|]]|]; try done.
  destruct (_ <? _)%Z eqn:Ever; [done|].
  destruct (TraceIDFromHex t) as [tid|]; [|done].
  destruct (SpanIDFromHex s) as [sid|]; [|done].
  destruct (hex.DecodeString f) as [[|opts0 [|]]|]; try done.
  destruct (_ && _) eqn:Eopts; [done|]. cbv zeta.
  destruct (IsValid (mkSpanReference tid sid _)) eqn:Evalid; [|done].
  intros _. exists ver0, tid, sid, opts0.
  apply Z.ltb_ge in Ever. unfold maxVersion in Ever.
  pose proof Evalid as [Ht Hs]%andb_true_iff.
  split_and!; try done.
  - lia.
  - intros Hz. rewrite Hz in Eopts. cbn in Eopts.
    by apply N.ltb_ge in Eopts.
Qed.

Lemma allChars_zeroDigit s :
  allChars zeroDigit s = true → s = zeros (String.length s).
Proof.
  induction s as [|c s IH]; simpl; [done|].
  intros [Hc Hs]%andb_true_iff. apply Ascii.eqb_eq in Hc as ->.
  by rewrite <- IH.
Qed.

(** An all-zero trace identifier field decodes, if at all, to the invalid
    identifier. *)
Lemma TraceIDFromHex_zeros t tid :
  allChars zeroDigit t = true → TraceIDFromHex t = Some tid →
  TraceID_IsValid tid = false.
Proof.
  intros Hz%allChars_zeroDigit. unfold TraceIDFromHex.
  destruct (Nat.eqb_spec (String.length t) 32) as [E|]; [|done].
  rewrite E in Hz. subst t. vm_compute. by intros [= <-].
Qed.

Lemma SpanIDFromHex_zeros s sid :
  allChars zeroDigit s = true → SpanIDFromHex s = Some sid →
  SpanID_IsValid sid = false.
Proof.
  intros Hz%allChars_zeroDigit. unfold SpanIDFromHex.
  destruct (Nat.eqb_spec (String.length s) 16) as [E|]; [|done].
  rewrite E in Hz. subst s. vm_compute. by intros [= <-].
Qed.

(** An accepted header is not a rejected one. *)
Lemma Accepted_not_Rejected carrier sc :
  Accepted carrier sc → ¬ Rejected carrier.
Proof.
  intros Ha Hr.
  destruct (Ha Background) as (ctx1 & H1 & E1).
  destruct (Hr Background) as (ctx2 & H2 & E2).
  rewrite H1 in H2. injection H2 as ->. rewrite E1 in E2. done.
Qed.

End Groups.

(** ** Parent resolution *)

Section ParentResolution.

Lemma addLinkIfValid_valid links sr kind :
  IsValid sr = true →
  parent.addLinkIfValid links sr kind =
    links ++ [mkLink sr [label_String "ignored-on-demand" kind]].
Proof. intros H. unfold parent.addLinkIfValid. by rewrite H. Qed.

Lemma addLinkIfValid_invalid links sr kind :
  IsValid sr = false → parent.addLinkIfValid links sr kind = links.
Proof. intros H. unfold parent.addLinkIfValid. by rewrite H. Qed.

(** C2. Parent resolution: for every context and every value of
    [ignoreContext], [GetSpanReferenceAndLinks] returns what the four
    branches of §4.2 prescribe.  With [ignoreContext] the parent is the
    invalid zero reference, [isRemote] is false and the links are the link
    of the local reference tagged [current], if that reference is valid,
    followed by the link of the remote reference tagged [remote], if that
    one is valid; otherwise the result is (local, false, no links) if the
    local reference is valid, else (remote, true, no links) if the remote
    one is valid, else (invalid, false, no links). *)
Theorem GetSpanReferenceAndLinks_Resolve (ctx : Context) (ignoreContext : bool) :
  parent.GetSpanReferenceAndLinks ctx ignoreContext =
    parent.Resolve ctx ignoreContext ∧
  IsValid (parent.GetSpanReferenceAndLinks ctx true).1.1 = false.
Proof.
  unfold parent.GetSpanReferenceAndLinks, parent.Resolve. cbv zeta.
  split; [|done].
  destruct ignoreContext; [|done].
  destruct (IsValid (SpanFromContext_SpanReference ctx)) eqn:El,
           (IsValid (RemoteSpanReferenceFromContext ctx)) eqn:Er.
  - by rewrite (addLinkIfValid_valid _ _ _ El), (addLinkIfValid_valid _ _ _ Er).
  - by rewrite (addLinkIfValid_valid _ _ _ El), (addLinkIfValid_invalid _ _ _ Er).
  - by rewrite (addLinkIfValid_invalid _ _ _ El), (addLinkIfValid_valid _ _ _ Er).
  - by rewrite (addLinkIfValid_invalid _ _ _ El), (addLinkIfValid_invalid _ _ _ Er).
Qed.

(** The two cases that §8 singles out, on a context holding two valid
    references. *)
Example resolve_both_valid :
  let ctx := ContextWithRemoteSpanReference
               (ContextWithSpan Background (sampleReference x01))
               otherReference in
  parent.GetSpanReferenceAndLinks ctx false = (sampleReference x01, false, []) ∧
  parent.GetSpanReferenceAndLinks ctx true =
    (zeroSpanReference, false,
     [mkLink (sampleReference x01) [label_String "ignored-on-demand" "current"];
      mkLink otherReference [label_String "ignored-on-demand" "remote"]]).
Proof. split; reflexivity. Qed.

(** C10. Link validity: for every context and every value of
    [ignoreContext], each link returned by [GetSpanReferenceAndLinks]
    references a valid span reference and carries exactly one attribute,
    whose key is [ignored-on-demand]; and when [ignoreContext] is true and
    neither the local nor the remote reference is valid, no link is
    returned. *)
Theorem GetSpanReferenceAndLinks_links_valid (ctx : Context) (ignoreContext : bool) :
  Forall (λ l : Link,
            IsValid (link_SpanReference l) = true ∧
            ∃ v, Attributes l = [mkKeyValue "ignored-on-demand" v])
         (parent.GetSpanReferenceAndLinks ctx ignoreContext).2 ∧
  (ignoreContext = true →
   IsValid (SpanFromContext_SpanReference ctx) = false →
   IsValid (RemoteSpanReferenceFromContext ctx) = false →
   (parent.GetSpanReferenceAndLinks ctx ignoreContext).2 = []).
Proof.
  unfold parent.GetSpanReferenceAndLinks. cbv zeta. split.
  - destruct ignoreContext; [|repeat case_match; by constructor].
    destruct (IsValid (SpanFromContext_SpanReference ctx)) eqn:El,
             (IsValid (RemoteSpanReferenceFromContext ctx)) eqn:Er;
      repeat first [ rewrite (addLinkIfValid_valid _ _ _ El)
                   | rewrite (addLinkIfValid_valid _ _ _ Er)
                   | rewrite (addLinkIfValid_invalid _ _ _ El)
                   | rewrite (addLinkIfValid_invalid _ _ _ Er) ];
      cbn [snd app]; repeat constructor; eauto.
  - intros -> El Er.
    by rewrite (addLinkIfValid_invalid _ _ _ El),
               (addLinkIfValid_invalid _ _ _ Er).
Qed.

Lemma GetSpanReferenceAndLinks_links_valid_witness :
  Forall (λ l : Link,
            IsValid (link_SpanReference l) = true ∧
            ∃ v, Attributes l = [mkKeyValue "ignored-on-demand" v])
    [mkLink (sampleReference x01) [label_String "ignored-on-demand" "current"];
     mkLink otherReference [label_String "ignored-on-demand" "remote"]] ∧
  (parent.GetSpanReferenceAndLinks Background true).2 = [].
Proof.
  split.
  - apply (GetSpanReferenceAndLinks_links_valid
             (ContextWithRemoteSpanReference
                (ContextWithSpan Background (sampleReference x01))
                otherReference) true).
  - apply (GetSpanReferenceAndLinks_links_valid Background true);
      reflexivity.
Defined.

End ParentResolution.

(** ** The round trip through the wire *)

Section RoundTrip.

Lemma app_empty_r s : s +:+ "" = s.
Proof. induction s as [|c s IH]; [done|]. by rewrite app_String, IH. Qed.

(** Masking to the sampled bit leaves 0 or 1, and is idempotent. *)
Lemma byte_and_FlagsSampled (b : byte) :
  Byte.to_N (byte_and b FlagsSampled) ≤ 1 ∧
  byte_and (byte_and b FlagsSampled) FlagsSampled = byte_and b FlagsSampled.
Proof. destruct b; vm_compute; split; congruence. Qed.

(** The header that [Inject] writes for a valid reference. *)
Lemma Inject_traceparent ctx carrier :
  IsValid (SpanFromContext_SpanReference ctx) = true →
  Get (Inject ctx carrier) traceparentHeader =
    let sc := SpanFromContext_SpanReference ctx in
    traceparent "00" (TraceID_String (sr_TraceID sc))
      (SpanID_String (sr_SpanID sc))
      (hex.EncodeToString [byte_and (sr_TraceFlags sc) FlagsSampled]) "".
Proof.
  intros Hv. unfold Inject. cbv zeta. rewrite Hv. cbn [negb].
  unfold Get, Set_. rewrite lookup_insert_eq. cbn [default].
  unfold traceparent. by rewrite app_empty_r, Sprintf_02x_byte.
Qed.

(** What [extract] reads back from that header. *)
Lemma extract_Inject ctx carrier :
  IsValid (SpanFromContext_SpanReference ctx) = true →
  extract (Inject ctx carrier) =
    let sc := SpanFromContext_SpanReference ctx in
    Done (mkSpanReference (sr_TraceID sc) (sr_SpanID sc)
            (byte_and (sr_TraceFlags sc) FlagsSampled)).
Proof.
  intros Hv. pose proof (Inject_traceparent ctx carrier Hv) as Hh.
  cbv zeta in *. set (sc := SpanFromContext_SpanReference ctx) in *.
  set (fl := byte_and (sr_TraceFlags sc) FlagsSampled) in *.
  assert (fieldWidths "00" (TraceID_String (sr_TraceID sc))
            (SpanID_String (sr_SpanID sc)) (hex.EncodeToString [fl])) as Hw.
  { unfold fieldWidths, TraceID_String, SpanID_String.
    rewrite !length_EncodeToString, !length_vec_to_list. done. }
  rewrite (extract_matched _ _ _ _ _ Hw); cycle 1.
  { rewrite Hh, (FindStringSubmatch_traceparent _ _ _ _ _ Hw).
    unfold TraceID_String, SpanID_String.
    by rewrite !lowerHex_EncodeToString. }
  f_equal. unfold fromGroups.
  rewrite TraceIDFromHex_String, SpanIDFromHex_String,
          DecodeString_EncodeToString.
  change (hex.DecodeString "00") with (Some [x00]).
  destruct (byte_and_FlagsSampled (sr_TraceFlags sc)) as [Hle Hidem].
  fold fl in Hle, Hidem. cbn [Byte.to_N Z.of_N Z.ltb Z.compare Z.eqb andb].
  unfold maxVersion. cbn [Z.ltb Z.compare].
  destruct (N.ltb_spec 2 (Byte.to_N fl)) as [?|_]; [lia|].
  cbv zeta. rewrite Hidem.
  replace (IsValid (mkSpanReference _ _ fl)) with (IsValid sc); [|done].
  by rewrite Hv.
Qed.

(** C1. Round trip through the wire propagator: for every valid span
    reference [r], injecting a context whose current span reference is [r]
    and extracting the carrier so obtained (into any context) returns a
    context whose remote span reference has the trace and span identifiers
    of [r] and the flags of [r] masked to the sampled bit; the current-span
    slot of the returned context is that of the context given to
    [Extract], so the reference is never set as the local one. *)
Theorem Inject_Extract_roundtrip
    (r : SpanReference) (ctx ctx0 : Context) (carrier : gmap string string) :
  IsValid r = true →
  ctx_currentSpan ctx = Some r →
  ∃ ctx',
    Extract ctx0 (Inject ctx carrier) = Done ctx' ∧
    ctx_remoteSpanReference ctx' =
      Some (mkSpanReference (sr_TraceID r) (sr_SpanID r)
              (byte_and (sr_TraceFlags r) FlagsSampled)) ∧
    ctx_currentSpan ctx' = ctx_currentSpan ctx0.
Proof.
  intros Hr Hctx.
  assert (SpanFromContext_SpanReference ctx = r) as Hsc.
  { unfold SpanFromContext_SpanReference. by rewrite Hctx. }
  assert (IsValid (SpanFromContext_SpanReference ctx) = true) as Hv
    by by rewrite Hsc.
  pose proof (extract_Inject ctx carrier Hv) as He. cbv zeta in He.
  rewrite Hsc in He.
  rewrite (Extract_of_extract _ _ _ He). cbv zeta.
  replace (IsValid (mkSpanReference _ _ _)) with (IsValid r); [|done].
  rewrite Hr. eexists; split; [done|]. split; [done|].
  by destruct (String.eqb _ _).
Qed.

Lemma Inject_Extract_roundtrip_witness :
  ∃ ctx',
    Extract Background
      (Inject (ContextWithSpan Background (sampleReference xff)) ∅) =
      Done ctx' ∧
    ctx_remoteSpanReference ctx' = Some (sampleReference x01) ∧
    ctx_currentSpan ctx' = None.
Proof.
  apply (Inject_Extract_roundtrip (sampleReference xff)
           (ContextWithSpan Background (sampleReference xff)) Background ∅);
    reflexivity.
Defined.

End RoundTrip.

(** ** Rejections *)

Section Rejections.

Lemma extract_total carrier : ∃ sc, extract carrier = Done sc.
Proof.
  destruct (extract_cases carrier) as [H | (v & t & s & f & tail & H)].
  - by eexists.
  - eexists. apply H.
Qed.

(** The fields of a header that [Extract] does not reject. *)
Lemma not_Rejected_fields carrier v t s f tail :
  carries carrier (traceparent v t s f tail) → fieldWidths v t s f →
  Rejected carrier ∨
  allChars lowerHex v = true ∧ allChars lowerHex t = true ∧
  allChars lowerHex s = true ∧ allChars lowerHex f = true ∧
  optionalTail tail = true ∧ IsValid (fromGroups v t s f) = true.
Proof.
  intros Hc Hw.
  destruct (not_Rejected_inv carrier)
    as [H | (v' & t' & s' & f' & tail' & Hh & Hw' & Hv & Ht & Hs & Hf
              & Htail & Hvalid & _)]; [by left|].
  right. rewrite Hc in Hh.
  destruct (traceparent_inj _ _ _ _ _ _ _ _ _ _ Hw Hw' Hh)
    as (-> & -> & -> & -> & ->).
  done.
Qed.

Lemma reserved_bits_above_two (b : byte) :
  N.land (Byte.to_N b) 254 ≠ 0 → b ≠ x02 → 2 < Byte.to_N b.
Proof.
  destruct b; vm_compute; intros H1 H2; try reflexivity; exfalso;
    first [ by apply H1 | by apply H2 ].
Qed.

Lemma Get_carrierOf h : Get (carrierOf h) traceparentHeader = h.
Proof. unfold Get, carrierOf. by rewrite lookup_singleton_eq. Qed.

(** The example of §8. *)
Example extract_example :
  extract
    (carrierOf "00-4bf92f3577b34da6a3ce929d0e0e4736-00f067aa0ba902b7-01") =
    Done (sampleReference x01).
Proof. vm_compute. reflexivity. Qed.

(** What follows the flags does not change the outcome of [extract], for
    any version: a dash-introduced segment is matched by the optional tail
    and then dropped. *)
Lemma extract_trailing_segment v t s f x :
  fieldWidths v t s f → dotStarEnd x = true →
  extract (carrierOf (traceparent v t s f ("-" +:+ x))) =
  extract (carrierOf (traceparent v t s f "")).
Proof.
  intros Hw Hx.
  pose proof (FindStringSubmatch_traceparent v t s f ("-" +:+ x) Hw) as H1.
  pose proof (FindStringSubmatch_traceparent v t s f "" Hw) as H2.
  replace (optionalTail ("-" +:+ x)) with true in H1
    by (symmetry; exact Hx).
  cbn [optionalTail] in H2.
  destruct (_ && _) eqn:E.
  - rewrite !(extract_matched _ v t s f Hw); by rewrite ?Get_carrierOf.
  - rewrite !extract_unmatched; by rewrite ?Get_carrierOf.
Qed.

(** [Inject] writes no key but those of [Fields]. *)
Lemma Inject_Fields ctx (carrier : gmap string string) (key : string) :
  key ∉ Fields → Inject ctx carrier !! key = carrier !! key.
Proof.
  unfold Fields. intros Hk. unfold Inject, Set_. cbv zeta.
  assert (key ≠ traceparentHeader ∧ key ≠ tracestateHeader) as [H1 H2].
  { split; intros ->; apply Hk; set_solver. }
  destruct (ctx_tracestate ctx), (negb _);
    by rewrite ?lookup_insert_ne.
Qed.

(** C3, on the code as it is.  The header of version 00 with the trailing
    segment [-extra] matches the expression with the same five submatches
    as without the segment, so the test [len(matches) != 5] lets it
    through: [Extract] accepts it and sets the remote reference. *)
Theorem Extract_version00_trailing_segment_accepted :
  let h := "00-4bf92f3577b34da6a3ce929d0e0e4736-00f067aa0ba902b7-01-extra" in
  length (FindStringSubmatch h) = 5%nat ∧
  Accepted (carrierOf h) (sampleReference x01) ∧
  ¬ Rejected (carrierOf h).
Proof.
  cbv zeta. split; [reflexivity|].
  assert (Accepted
            (carrierOf
               "00-4bf92f3577b34da6a3ce929d0e0e4736-00f067aa0ba902b7-01-extra")
            (sampleReference x01)) as Ha.
  { apply Accepted_of_extract; [vm_compute|]; reflexivity. }
  split; [done|]. by apply (Accepted_not_Rejected _ _ Ha).
Qed.

(** C4, as stated, fails: the flags byte [02] of a header of version 00
    has a reserved bit set, and the header is accepted. *)
Lemma reserved_flag_bit_not_rejected :
  ¬ (∀ carrier v t s f tail b,
       carries carrier (traceparent v t s f tail) → fieldWidths v t s f →
       hex.DecodeString v = Some [x00] → hex.DecodeString f = Some [b] →
       N.land (Byte.to_N b) 254 ≠ 0 →
       Rejected carrier).
Proof.
  intros H.
  apply (Accepted_not_Rejected
           (carrierOf "00-4bf92f3577b34da6a3ce929d0e0e4736-00f067aa0ba902b7-02")
           (sampleReference x00)).
  - apply Accepted_of_extract; [vm_compute|]; reflexivity.
  - apply (H _ "00" "4bf92f3577b34da6a3ce929d0e0e4736" "00f067aa0ba902b7"
             "02" "" x02); try reflexivity.
    + by repeat split.
    + by vm_compute.
Qed.

(** C4, amended.  For every header of version 0, [Extract] rejects the
    header whenever the decoded flags byte has a bit other than the sampled
    bit set and is not the byte [02]; that is, whenever it exceeds 2. *)
Theorem Extract_version0_reserved_flags_rejected
    (carrier : gmap string string) (v t s f tail : string) (b : byte) :
  carries carrier (traceparent v t s f tail) → fieldWidths v t s f →
  hex.DecodeString v = Some [x00] → hex.DecodeString f = Some [b] →
  N.land (Byte.to_N b) 254 ≠ 0 → b ≠ x02 →
  Rejected carrier.
Proof.
  intros Hc Hw Hver Hfl Hres Hne.
  destruct (not_Rejected_fields _ _ _ _ _ _ Hc Hw)
    as [H | (_ & _ & _ & _ & _ & Hvalid)]; [done|].
  apply fromGroups_valid_inv in Hvalid
    as (ver0 & tid & sid & opts0 & Hver' & _ & _ & _ & Hfl' & Hle & _).
  rewrite Hver in Hver'. injection Hver' as <-.
  rewrite Hfl in Hfl'. injection Hfl' as <-.
  pose proof (reserved_bits_above_two b Hres Hne).
  specialize (Hle eq_refl). lia.
Qed.

Lemma Extract_version0_reserved_flags_rejected_witness :
  Rejected
    (carrierOf "00-4bf92f3577b34da6a3ce929d0e0e4736-00f067aa0ba902b7-09").
Proof.
  apply (Extract_version0_reserved_flags_rejected _
           "00" "4bf92f3577b34da6a3ce929d0e0e4736" "00f067aa0ba902b7"
           "09" "" x09); try reflexivity.
  - by repeat split.
  - by vm_compute.
  - discriminate.
Defined.

End Rejections.

Section FailSoft.

Lemma optionalTail_inv tail :
  optionalTail tail = true → tail = "" ∨ ∃ x, tail = "-" +:+ x.
Proof.
  destruct tail as [|c x]; [by left|]. simpl.
  intros [Hc _]%andb_true_iff. apply Ascii.eqb_eq in Hc as ->.
  right. by exists x.
Qed.

Lemma byte_to_N_zero (b : byte) : Byte.to_N b = 0 → b = x00.
Proof.
  intros H. pose proof (Byte.of_to_N b) as E. rewrite H in E.
  by injection E.
Qed.

(** A header that [Extract] does not reject is well formed, or is a
    header of version 0 with a segment after its flags. *)
Lemma not_Rejected_WellFormed carrier :
  Rejected carrier ∨ WellFormed (Get carrier traceparentHeader) ∨
  TrailingSegment00 (Get carrier traceparentHeader).
Proof.
  destruct (not_Rejected_inv carrier)
    as [H | (v & t & s & f & tail & Hh & Hw & Hv & Ht & Hs & Hf
              & Htail & Hvalid & _)]; [by left|].
  right.
  apply fromGroups_valid_inv in Hvalid
    as (ver0 & tid & sid & opts0 & Hver & Hmax & Htid & Hsid & Hfl & Hle
        & Htv & Hsv & _).
  assert (allChars zeroDigit t = false) as Hzt.
  { destruct (allChars zeroDigit t) eqn:E; [|done].
    rewrite (TraceIDFromHex_zeros _ _ E Htid) in Htv. done. }
  assert (allChars zeroDigit s = false) as Hzs.
  { destruct (allChars zeroDigit s) eqn:E; [|done].
    rewrite (SpanIDFromHex_zeros _ _ E Hsid) in Hsv. done. }
  apply optionalTail_inv in Htail.
  destruct (N.eq_dec (Byte.to_N ver0) 0) as [Hz|Hnz].
  - destruct Htail as [->|[x ->]].
    + left. exists v, t, s, f, "", ver0, opts0. split_and!; try done.
      by left.
    + right. exists v, t, s, f, x. split_and!; try done.
      * by rewrite Hver, (byte_to_N_zero _ Hz).
      * exists v, t, s, f, "", ver0, opts0. split_and!; try done.
        by left.
  - left. exists v, t, s, f, tail, ver0, opts0. split_and!; done.
Qed.

(** The header of version 0 with the segment [-extra] after its flags is
    not well formed. *)
Lemma trailing_segment_not_WellFormed :
  ¬ WellFormed
      "00-4bf92f3577b34da6a3ce929d0e0e4736-00f067aa0ba902b7-01-extra".
Proof.
  intros (v & t & s & f & tail & ver & fl & Hh & Hw & _ & _ & _ & _ & _
          & Hver & _ & _ & _ & _ & _ & Htail).
  change "00-4bf92f3577b34da6a3ce929d0e0e4736-00f067aa0ba902b7-01-extra"
    with (traceparent "00" "4bf92f3577b34da6a3ce929d0e0e4736"
            "00f067aa0ba902b7" "01" "-extra") in Hh.
  apply traceparent_inj in Hh as (<- & _ & _ & _ & <-);
    [|by repeat split|done].
  injection Hver as <-. by specialize (Htail eq_refl).
Qed.

(** C5, on the code as it is.  [Extract] never panics and has no error
    result: for every carrier and every context it returns a context.  But
    it is not true that every [traceparent] that is not well formed leaves
    the remote span reference unset: the header of version 0 with the
    segment [-extra] after its flags is not well formed (version 0 forbids
    what follows the flags), and [Extract] sets the remote reference from
    it.  The test [len(matches) != 5] that should reject it is the only
    check that fails: every other header that is not well formed (a field
    of the wrong width, a character that is not a lowercase hexadecimal
    digit, a missing dash-separated group, version [ff], an all-zero
    identifier, flags above 2 for version 0) is treated as absent. *)
Theorem Extract_fail_soft_but_trailing_segment :
  (∀ (ctx : Context) (carrier : gmap string string),
     ∃ ctx', Extract ctx carrier = Done ctx') ∧
  (let h := "00-4bf92f3577b34da6a3ce929d0e0e4736-00f067aa0ba902b7-01-extra" in
   ¬ WellFormed h ∧ TrailingSegment00 h ∧
   Accepted (carrierOf h) (sampleReference x01) ∧
   ¬ Rejected (carrierOf h)) ∧
  (∀ carrier : gmap string string,
     ¬ WellFormed (Get carrier traceparentHeader) →
     Rejected carrier ∨ TrailingSegment00 (Get carrier traceparentHeader)).
Proof.
  split_and!.
  - intros ctx carrier. destruct (extract_total carrier) as [sc H].
    rewrite (Extract_of_extract _ _ _ H). by eexists.
  - cbv zeta.
    assert (Accepted
              (carrierOf
                 "00-4bf92f3577b34da6a3ce929d0e0e4736-00f067aa0ba902b7-01-extra")
              (sampleReference x01)) as Ha.
    { apply Accepted_of_extract; [vm_compute|]; reflexivity. }
    split_and!.
    + apply trailing_segment_not_WellFormed.
    + exists "00", "4bf92f3577b34da6a3ce929d0e0e4736", "00f067aa0ba902b7",
        "01", "extra".
      split_and!; try done.
      exists "00", "4bf92f3577b34da6a3ce929d0e0e4736", "00f067aa0ba902b7",
        "01", "", x00, x01.
      split_and!; try done. by left.
    + done.
    + by apply (Accepted_not_Rejected _ _ Ha).
  - intros carrier Hwf.
    destruct (not_Rejected_WellFormed carrier) as [H|[H|H]];
      [by left | done | by right].
Qed.

Lemma Extract_fail_soft_but_trailing_segment_witness :
  Rejected
    (carrierOf "ff-4bf92f3577b34da6a3ce929d0e0e4736-00f067aa0ba902b7-01").
Proof.
  destruct
    (proj2 (proj2 Extract_fail_soft_but_trailing_segment)
       (carrierOf "ff-4bf92f3577b34da6a3ce929d0e0e4736-00f067aa0ba902b7-01"))
    as [H | (v & t & s & f & x & Hh & Hw & Hver & _)].
  - intros (v & t & s & f & tail & ver & fl & Hh & Hw & _ & _ & _ & _ & _
            & Hver & Hmax & _).
    change (Get _ _) with
      (traceparent "ff" "4bf92f3577b34da6a3ce929d0e0e4736"
         "00f067aa0ba902b7" "01" "") in Hh.
    apply traceparent_inj in Hh as (<- & _); [|by repeat split|done].
    injection Hver as <-. vm_compute in Hmax. by apply Hmax.
  - exact H.
  - change (Get _ _) with
      (traceparent "ff" "4bf92f3577b34da6a3ce929d0e0e4736"
         "00f067aa0ba902b7" "01" "") in Hh.
    apply traceparent_inj in Hh as (<- & _); [|by repeat split|done].
    discriminate Hver.
Defined.

(** C6. For every header whose trace identifier field is 32 zeros or
    whose span identifier field is 16 zeros, [Extract] treats the header as
    absent and sets no remote span reference; in particular for the header
    [00-00000000000000000000000000000000-00f067aa0ba902b7-01]. *)
Theorem Extract_all_zero_identifier_rejected :
  (∀ (carrier : gmap string string) (v t s f tail : string),
     carries carrier (traceparent v t s f tail) → fieldWidths v t s f →
     t = zeros 32 ∨ s = zeros 16 →
     Rejected carrier) ∧
  Rejected
    (carrierOf "00-00000000000000000000000000000000-00f067aa0ba902b7-01").
Proof.
  assert (∀ (carrier : gmap string string) (v t s f tail : string),
     carries carrier (traceparent v t s f tail) → fieldWidths v t s f →
     t = zeros 32 ∨ s = zeros 16 →
     Rejected carrier) as Hgen.
  { intros carrier v t s f tail Hc Hw Hz.
    destruct (not_Rejected_fields _ _ _ _ _ _ Hc Hw)
      as [H | (_ & _ & _ & _ & _ & Hvalid)]; [done|].
    apply fromGroups_valid_inv in Hvalid
      as (ver0 & tid & sid & opts0 & _ & _ & Htid & Hsid & _ & _
          & Htv & Hsv & _).
    destruct Hz as [-> | ->].
    - rewrite (TraceIDFromHex_zeros (zeros 32) tid eq_refl Htid) in Htv. done.
    - rewrite (SpanIDFromHex_zeros (zeros 16) sid eq_refl Hsid) in Hsv. done. }
  split; [done|].
  apply (Hgen _ "00" (zeros 32) "00f067aa0ba902b7" "01" "").
  - reflexivity.
  - by repeat split.
  - by left.
Qed.

Lemma Extract_all_zero_identifier_rejected_witness :
  Rejected
    (carrierOf "00-4bf92f3577b34da6a3ce929d0e0e4736-0000000000000000-01").
Proof.
  apply (proj1 Extract_all_zero_identifier_rejected _
           "00" "4bf92f3577b34da6a3ce929d0e0e4736" (zeros 16) "01" "").
  - reflexivity.
  - by repeat split.
  - by right.
Defined.

(** C7. For every header whose two-digit version field decodes to a value
    above 254 (that is, 255, from [ff]), [Extract] rejects the header and
    sets no remote span reference, whatever follows the version field. *)
Theorem Extract_version_above_254_rejected
    (carrier : gmap string string) (v rest : string) (b : byte) :
  carries carrier (v +:+ rest) → String.length v = 2%nat →
  hex.DecodeString v = Some [b] → 254 < Byte.to_N b →
  Rejected carrier.
Proof.
  intros Hc Hv Hver Hb.
  destruct (not_Rejected_inv carrier)
    as [H | (v' & t & s & f & tail & Hh & (Hv' & _) & _ & _ & _ & _ & _
              & Hvalid & _)]; [done|].
  rewrite Hc in Hh. unfold traceparent in Hh.
  apply app_inj_length in Hh as [<- _]; [|congruence].
  apply fromGroups_valid_inv in Hvalid
    as (ver0 & tid & sid & opts0 & Hver' & Hmax & _).
  rewrite Hver in Hver'. injection Hver' as <-. lia.
Qed.

Lemma Extract_version_above_254_rejected_witness :
  Rejected
    (carrierOf "ff-4bf92f3577b34da6a3ce929d0e0e4736-00f067aa0ba902b7-01").
Proof.
  apply (Extract_version_above_254_rejected _ "ff"
           "-4bf92f3577b34da6a3ce929d0e0e4736-00f067aa0ba902b7-01" xff);
    reflexivity.
Defined.

(** C9. [Extract] accepts lowercase hexadecimal digits only: a header
    with an uppercase hexadecimal letter (A to F) in its version, trace
    identifier, span identifier or flags field does not match the
    expression, and [Extract] sets no remote span reference. *)
Theorem Extract_uppercase_hex_rejected
    (carrier : gmap string string) (v t s f tail : string) :
  carries carrier (traceparent v t s f tail) → fieldWidths v t s f →
  someChar upperHexLetter (v +:+ t +:+ s +:+ f) = true →
  FindStringSubmatch (traceparent v t s f tail) = [] ∧ Rejected carrier.
Proof.
  intros Hc Hw Hup.
  assert (FindStringSubmatch (traceparent v t s f tail) = []) as Hm.
  { rewrite (FindStringSubmatch_traceparent _ _ _ _ _ Hw).
    apply (someChar_allChars _ lowerHex) in Hup;
      [|apply upperHexLetter_not_lowerHex].
    rewrite !allChars_app, !andb_assoc in Hup. by rewrite Hup. }
  split; [done|].
  apply Rejected_of_extract, extract_unmatched. by rewrite Hc.
Qed.

Lemma Extract_uppercase_hex_rejected_witness :
  FindStringSubmatch
    "00-4bf92f3577b34da6a3ce929d0e0e4736-00F067aa0ba902b7-01" = [] ∧
  Rejected
    (carrierOf "00-4bf92f3577b34da6a3ce929d0e0e4736-00F067aa0ba902b7-01").
Proof.
  apply (Extract_uppercase_hex_rejected _
           "00" "4bf92f3577b34da6a3ce929d0e0e4736" "00F067aa0ba902b7"
           "01" "").
  - reflexivity.
  - by repeat split.
  - reflexivity.
Defined.

End FailSoft.

(** ** The pass-through of [tracestate] *)

Section Tracestate.

(** C8. The handling of [tracestate] does not depend on [traceparent]:
    for every carrier whose [tracestate] field is a non-empty string,
    [Extract] returns a context that holds that string as it is, also when
    the [traceparent] is empty, malformed or rejected; with a rejected
    [traceparent] the returned context is the given one with the string
    stored, not the given one unchanged. *)
Theorem Extract_tracestate_verbatim
    (ctx : Context) (carrier : gmap string string) :
  Get carrier tracestateHeader ≠ "" →
  ∃ ctx',
    Extract ctx carrier = Done ctx' ∧
    ctx_tracestate ctx' = Some (Get carrier tracestateHeader) ∧
    (Rejected carrier →
     ctx' = WithTracestate ctx (Get carrier tracestateHeader)).
Proof.
  intros Hst. destruct (extract_total carrier) as [sc H].
  rewrite (Extract_of_extract _ _ _ H). cbv zeta.
  destruct (String.eqb_spec (Get carrier tracestateHeader) "") as [|_];
    [done|].
  eexists; split; [done|].
  destruct (IsValid sc) eqn:Hsc; [|done].
  split; [done|]. intros Hr.
  by destruct (Accepted_not_Rejected _ _ (Accepted_of_extract _ _ H Hsc)).
Qed.

Lemma Extract_tracestate_verbatim_witness :
  ∃ ctx',
    Extract Background
      (<[tracestateHeader := "congo=t61rcWkgMzE"]> (carrierOf "garbage")) =
      Done ctx' ∧
    ctx_tracestate ctx' = Some "congo=t61rcWkgMzE" ∧
    (Rejected (<[tracestateHeader := "congo=t61rcWkgMzE"]> (carrierOf "garbage")) →
     ctx' = WithTracestate Background "congo=t61rcWkgMzE").
Proof.
  assert (Get (<[tracestateHeader := "congo=t61rcWkgMzE"]> (carrierOf "garbage"))
            tracestateHeader = "congo=t61rcWkgMzE") as E
    by (vm_compute; reflexivity).
  pose proof (Extract_tracestate_verbatim Background
                (<[tracestateHeader := "congo=t61rcWkgMzE"]>
                   (carrierOf "garbage"))) as W.
  rewrite E in W. apply W. discriminate.
Defined.

End Tracestate.

(** * Further properties of the propagator *)

(** ** Lowercase hexadecimal text decodes, and encodes back *)

Section HexText.

Lemma lowerHex_fromHexChar c :
  lowerHex c = true →
  ∃ n, hex.fromHexChar c = Some n ∧ n < 16 ∧ hex.hexdigit n = c.
Proof.
  destruct c as [[] [] [] [] [] [] [] []]; intros H; vm_compute in H;
    try discriminate H; vm_compute; eexists;
    (split; [reflexivity | split; reflexivity]).
Qed.

Lemma nibble_cases (n : N) :
  n < 16 →
  n = 0 ∨ n = 1 ∨ n = 2 ∨ n = 3 ∨ n = 4 ∨ n = 5 ∨ n = 6 ∨ n = 7 ∨
  n = 8 ∨ n = 9 ∨ n = 10 ∨ n = 11 ∨ n = 12 ∨ n = 13 ∨ n = 14 ∨ n = 15.
Proof. lia. Qed.

(** Two nibbles packed into a byte are its high and low halves. *)
Lemma nibbles_of_byte a b :
  a < 16 → b < 16 →
  N.shiftr (Byte.to_N (byte_of_N (N.lor (N.shiftl a 4) b))) 4 = a ∧
  N.land (Byte.to_N (byte_of_N (N.lor (N.shiftl a 4) b))) 15 = b.
Proof.
  intros Ha%nibble_cases Hb%nibble_cases.
  repeat (destruct Ha as [->|Ha]); try subst a;
    repeat (destruct Hb as [->|Hb]); try subst b; by vm_compute.
Qed.

Lemma DecodeString_lowerHex k s :
  allChars lowerHex s = true → String.length s = (2 * k)%nat →
  ∃ l, hex.DecodeString s = Some l ∧ hex.EncodeToString l = s ∧
       length l = k.
Proof.
  revert s; induction k as [|k IH]; intros s Hs Hlen.
  - destruct s; [|done]. by exists [].
  - destruct s as [|p [|q rest]]; simpl in Hlen; try lia.
    simpl in Hs. apply andb_true_iff in Hs as [Hp Hs].
    apply andb_true_iff in Hs as [Hq Hs].
    destruct (IH rest Hs) as (l & Hl & He & Hk); [lia|].
    destruct (lowerHex_fromHexChar p Hp) as (a & Ha & Ha16 & Hpa).
    destruct (lowerHex_fromHexChar q Hq) as (b & Hb & Hb16 & Hqb).
    destruct (nibbles_of_byte a b Ha16 Hb16) as [Hhi Hlo].
    eexists. cbn [hex.DecodeString]. rewrite Ha, Hb, Hl.
    split; [reflexivity|]. cbn [hex.EncodeToString length].
    rewrite Hhi, Hlo, Hpa, Hqb, He, Hk. done.
Qed.

Lemma allZero_byte (b : byte) :
  Byte.eqb x00 b =
    zeroDigit (hex.hexdigit (N.shiftr (Byte.to_N b) 4)) &&
    zeroDigit (hex.hexdigit (N.land (Byte.to_N b) 15)).
Proof. by destruct b. Qed.

(** The bytes are all zero exactly when their text is all zeros. *)
Lemma allZero_EncodeToString (l : list byte) :
  allZero l = allChars zeroDigit (hex.EncodeToString l).
Proof.
  induction l as [|b l IH]; [done|].
  cbn [hex.EncodeToString allChars]. unfold allZero in *. cbn [forallb].
  by rewrite IH, allZero_byte, andb_assoc.
Qed.

Lemma vec_of_list_length {A} n (l : list A) :
  length l = n → ∃ v, vec_of_list n l = Some v ∧ vec_to_list v = l.
Proof.
  revert l; induction n as [|n IH]; intros [|x l] Hl; simpl in Hl; try lia.
  - by exists [#].
  - destruct (IH l) as (v & Hv & Hvl); [lia|].
    exists (x ::: v). cbn. rewrite Hv. split; [done|]. by rewrite <- Hvl.
Qed.

(** A field of 32 lowercase hexadecimal digits is the text of exactly one
    trace identifier, valid unless the field is all zeros. *)
Lemma TraceIDFromHex_lowerHex t :
  String.length t = 32%nat → allChars lowerHex t = true →
  ∃ tid, TraceIDFromHex t = Some tid ∧ TraceID_String tid = t ∧
         TraceID_IsValid tid = negb (allChars zeroDigit t).
Proof.
  intros Hlen Hhex.
  destruct (DecodeString_lowerHex 16 t Hhex Hlen) as (l & Hl & He & Hk).
  destruct (vec_of_list_length 16 l Hk) as (tid & Htid & Hvl).
  exists tid. unfold TraceIDFromHex, TraceID_String, TraceID_IsValid.
  rewrite Hlen, Hl, Hvl, allZero_EncodeToString, He. cbn [Nat.eqb negb].
  by cbn [mbind option_bind].
Qed.

Lemma SpanIDFromHex_lowerHex s :
  String.length s = 16%nat → allChars lowerHex s = true →
  ∃ sid, SpanIDFromHex s = Some sid ∧ SpanID_String sid = s ∧
         SpanID_IsValid sid = negb (allChars zeroDigit s).
Proof.
  intros Hlen Hhex.
  destruct (DecodeString_lowerHex 8 s Hhex Hlen) as (l & Hl & He & Hk).
  destruct (vec_of_list_length 8 l Hk) as (sid & Hsid & Hvl).
  exists sid. unfold SpanIDFromHex, SpanID_String, SpanID_IsValid.
  rewrite Hlen, Hl, Hvl, allZero_EncodeToString, He. cbn [Nat.eqb negb].
  by cbn [mbind option_bind].
Qed.

End HexText.

(** ** Which headers [Extract] accepts *)

Section Acceptance.

Lemma dotStarEnd_isNewline x : dotStarEnd x = negb (someChar isNewline x).
Proof.
  induction x as [|c x IH]; [done|]. simpl. rewrite IH.
  unfold anyButNewline, isNewline. by rewrite negb_orb.
Qed.

Lemma optionalTail_iff tail :
  optionalTail tail = true ↔
  tail = "" ∨ ∃ x, tail = "-" +:+ x ∧ someChar isNewline x = false.
Proof.
  split.
  - destruct tail as [|c x]; [by left|]. simpl.
    intros [Hc Hx]%andb_true_iff. apply Ascii.eqb_eq in Hc as ->.
    right. exists x. split; [done|].
    rewrite dotStarEnd_isNewline in Hx. by apply negb_true_iff.
  - intros [-> | (x & -> & Hx)]; [done|].
    rewrite app_String, app_empty. simpl.
    by rewrite dotStarEnd_isNewline, Hx.
Qed.

(** An acceptable header gives the reference that its fields spell. *)
Lemma extract_acceptable carrier v t s f tail ver fl :
  carries carrier (traceparent v t s f tail) → fieldWidths v t s f →
  allChars lowerHex v = true → allChars lowerHex t = true →
  allChars lowerHex s = true → allChars lowerHex f = true →
  optionalTail tail = true →
  hex.DecodeString v = Some [ver] → Byte.to_N ver ≤ 254 →
  allChars zeroDigit t = false → allChars zeroDigit s = false →
  hex.DecodeString f = Some [fl] →
  (Byte.to_N ver = 0 → Byte.to_N fl ≤ 2) →
  ∃ tid sid,
    TraceID_String tid = t ∧ SpanID_String sid = s ∧
    IsValid (mkSpanReference tid sid (byte_and fl FlagsSampled)) = true ∧
    extract carrier =
      Done (mkSpanReference tid sid (byte_and fl FlagsSampled)).
Proof.
  intros Hc Hw Hv Ht Hs Hf Htail Hver Hmax Hzt Hzs Hfl Hle.
  pose proof Hw as (Hlv & Hlt & Hls & Hlf).
  destruct (TraceIDFromHex_lowerHex t Hlt Ht) as (tid & Htid & Htxt & Htv).
  destruct (SpanIDFromHex_lowerHex s Hls Hs) as (sid & Hsid & Hsxt & Hsv).
  rewrite Hzt in Htv. rewrite Hzs in Hsv. cbn [negb] in Htv, Hsv.
  assert (IsValid (mkSpanReference tid sid (byte_and fl FlagsSampled)) = true)
    as Hvalid by (unfold IsValid; cbn; by rewrite Htv, Hsv).
  exists tid, sid. do 3 (split; [done|]).
  rewrite (extract_matched carrier v t s f Hw); cycle 1.
  { rewrite Hc, (FindStringSubmatch_traceparent _ _ _ _ _ Hw).
    by rewrite Hv, Ht, Hs, Hf, Htail. }
  f_equal. unfold fromGroups. rewrite Hver, Htid, Hsid, Hfl.
  destruct (Z.ltb_spec maxVersion (Z.of_N (Byte.to_N ver))) as [Hgt|_].
  { unfold maxVersion in Hgt. lia. }
  destruct (Z.eqb_spec (Z.of_N (Byte.to_N ver)) 0) as [Hz|_]; cbn [andb].
  - destruct (N.ltb_spec 2 (Byte.to_N fl)) as [Hgt|_]; [|by rewrite Hvalid].
    assert (Byte.to_N ver = 0) as Hz' by lia. specialize (Hle Hz'). lia.
  - by rewrite Hvalid.
Qed.

(** Two references accepted from one carrier are the same. *)
Lemma Accepted_inj carrier sc1 sc2 :
  Accepted carrier sc1 → Accepted carrier sc2 → sc1 = sc2.
Proof.
  intros H1 H2.
  destruct (H1 Background) as (c1 & E1 & R1).
  destruct (H2 Background) as (c2 & E2 & R2).
  rewrite E1 in E2. injection E2 as ->. rewrite R1 in R2. by injection R2.
Qed.

(** The reference taken from a header of known layout, in terms of its
    fields. *)
Lemma Accepted_fields carrier v t s f tail sc :
  carries carrier (traceparent v t s f tail) → fieldWidths v t s f →
  Accepted carrier sc →
  ∃ ver fl,
    allChars lowerHex v = true ∧ allChars lowerHex t = true ∧
    allChars lowerHex s = true ∧ allChars lowerHex f = true ∧
    optionalTail tail = true ∧
    hex.DecodeString v = Some [ver] ∧ Byte.to_N ver ≤ 254 ∧
    TraceIDFromHex t = Some (sr_TraceID sc) ∧
    SpanIDFromHex s = Some (sr_SpanID sc) ∧
    hex.DecodeString f = Some [fl] ∧
    (Byte.to_N ver = 0 → Byte.to_N fl ≤ 2) ∧
    sr_TraceFlags sc = byte_and fl FlagsSampled ∧ IsValid sc = true.
Proof.
  intros Hc Hw Ha.
  destruct (not_Rejected_inv carrier)
    as [Hr | (v' & t' & s' & f' & tail' & Hh & Hw' & Hv & Ht & Hs & Hf
              & Htail & Hvalid & Ha')].
  { by destruct (Accepted_not_Rejected _ _ Ha). }
  rewrite Hc in Hh.
  destruct (traceparent_inj _ _ _ _ _ _ _ _ _ _ Hw Hw' Hh)
    as (<- & <- & <- & <- & <-).
  rewrite (Accepted_inj _ _ _ Ha Ha').
  pose proof Hvalid as Hvalid'.
  apply fromGroups_valid_inv in Hvalid
    as (ver & tid & sid & fl & Hver & Hmax & Htid & Hsid & Hfl & Hle
        & _ & _ & Heq).
  exists ver, fl. rewrite Heq in Hvalid' |- *. by split_and!.
Qed.

Lemma Accepted_valid carrier sc : Accepted carrier sc → IsValid sc = true.
Proof.
  intros Ha.
  destruct (not_Rejected_inv carrier)
    as [Hr | (v & t & s & f & tail & _ & _ & _ & _ & _ & _ & _ & Hv & Ha')].
  - by destruct (Accepted_not_Rejected _ _ Ha).
  - by rewrite (Accepted_inj _ _ _ Ha Ha').
Qed.

(** [Extract] does not touch the current-span slot. *)
Lemma Extract_currentSpan ctx ctx' carrier :
  Extract ctx carrier = Done ctx' →
  ctx_currentSpan ctx' = ctx_currentSpan ctx.
Proof.
  destruct (extract_total carrier) as [sc He].
  rewrite (Extract_of_extract _ _ _ He). cbv zeta. intros [= <-].
  by destruct (String.eqb _ _), (IsValid sc).
Qed.

End Acceptance.

Section ExtractProperties.

(** X1. [Extract] takes a remote span reference from a carrier exactly
    when its [traceparent] is acceptable: four dash-separated fields of
    lowercase hexadecimal digits of widths 2, 32, 16 and 2; then nothing or
    a dash-introduced tail without a newline; a version other than [ff];
    identifiers that are not all zero; and, for version 0 only, flags of at
    most 2.  Every other header is rejected. *)
Theorem Extract_accepts_exactly (carrier : gmap string string) :
  ((∃ sc, Accepted carrier sc) ↔
   Acceptable (Get carrier traceparentHeader)) ∧
  (Rejected carrier ↔ ¬ Acceptable (Get carrier traceparentHeader)).
Proof.
  assert ((∃ sc, Accepted carrier sc) ↔
          Acceptable (Get carrier traceparentHeader)) as Hiff.
  { split.
    - intros [sc Ha].
      destruct (not_Rejected_inv carrier)
        as [Hr | (v & t & s & f & tail & Hh & Hw & Hv & Ht & Hs & Hf
                  & Htail & _ & Ha')].
      { by destruct (Accepted_not_Rejected _ _ Ha). }
      destruct (Accepted_fields carrier v t s f tail _ Hh Hw Ha')
        as (ver & fl & _ & _ & _ & _ & _ & Hver & Hmax & Htid & Hsid & Hfl
            & Hle & _ & Hvalid).
      apply andb_true_iff in Hvalid as [Htv Hsv].
      exists v, t, s, f, tail, ver, fl. split_and!; try done.
      + by apply optionalTail_iff.
      + destruct (allChars zeroDigit t) eqn:E; [|done].
        by rewrite (TraceIDFromHex_zeros _ _ E Htid) in Htv.
      + destruct (allChars zeroDigit s) eqn:E; [|done].
        by rewrite (SpanIDFromHex_zeros _ _ E Hsid) in Hsv.
    - intros (v & t & s & f & tail & ver & fl & Hh & Hw & Hv & Ht & Hs & Hf
              & Htail%optionalTail_iff & Hver & Hmax & Hzt & Hzs & Hfl & Hle).
      destruct (extract_acceptable carrier v t s f tail ver fl)
        as (tid & sid & _ & _ & Hvalid & He); try done.
      eexists. by apply (Accepted_of_extract _ _ He). }
  split; [done|]. split.
  - intros Hr Hacc. apply Hiff in Hacc as [sc Ha].
    by destruct (Accepted_not_Rejected _ _ Ha).
  - intros Hno.
    destruct (not_Rejected_inv carrier)
      as [Hr | (v & t & s & f & tail & _ & _ & _ & _ & _ & _ & _ & _ & Ha)];
      [done|].
    destruct Hno. apply Hiff. by eexists.
Qed.

Lemma Extract_accepts_exactly_witness :
  ∃ sc,
    Accepted
      (carrierOf "01-4bf92f3577b34da6a3ce929d0e0e4736-00f067aa0ba902b7-ff-x")
      sc.
Proof.
  apply (proj1 (Extract_accepts_exactly _)).
  exists "01", "4bf92f3577b34da6a3ce929d0e0e4736", "00f067aa0ba902b7", "ff",
         "-x", x01, xff.
  split_and!; try reflexivity.
  - by repeat split.
  - right. by exists "x".
  - by vm_compute.
  - intros H. discriminate H.
Defined.

(** X2. The reference that [Extract] takes from a header is the one its
    fields spell: the trace and span identifiers whose hexadecimal text is
    the second and third field, never the all-zero ones, and the decoded
    flags byte masked to the sampled bit, so flags of 0 or 1. *)
Theorem Extract_accepted_reference
    (carrier : gmap string string) (v t s f tail : string)
    (sc : SpanReference) :
  carries carrier (traceparent v t s f tail) → fieldWidths v t s f →
  Accepted carrier sc →
  TraceID_String (sr_TraceID sc) = t ∧
  SpanID_String (sr_SpanID sc) = s ∧
  (∃ fl, hex.DecodeString f = Some [fl] ∧
         sr_TraceFlags sc = byte_and fl FlagsSampled) ∧
  Byte.to_N (sr_TraceFlags sc) ≤ 1 ∧
  IsValid sc = true.
Proof.
  intros Hc Hw Ha.
  destruct (Accepted_fields _ _ _ _ _ _ _ Hc Hw Ha)
    as (ver & fl & _ & Ht & Hs & _ & _ & _ & _ & Htid & Hsid & Hfl & _
        & Hflags & Hvalid).
  pose proof Hw as (_ & Hlt & Hls & _).
  destruct (TraceIDFromHex_lowerHex t Hlt Ht) as (tid & Htid' & Htxt & _).
  destruct (SpanIDFromHex_lowerHex s Hls Hs) as (sid & Hsid' & Hsxt & _).
  rewrite Htid in Htid'. injection Htid' as <-.
  rewrite Hsid in Hsid'. injection Hsid' as <-.
  split_and!; try done.
  - by exists fl.
  - rewrite Hflags. apply byte_and_FlagsSampled.
Qed.

Lemma Extract_accepted_reference_witness :
  TraceID_String (sr_TraceID (sampleReference x01)) =
    "4bf92f3577b34da6a3ce929d0e0e4736" ∧
  SpanID_String (sr_SpanID (sampleReference x01)) = "00f067aa0ba902b7" ∧
  (∃ fl, hex.DecodeString "01" = Some [fl] ∧
         sr_TraceFlags (sampleReference x01) = byte_and fl FlagsSampled) ∧
  Byte.to_N (sr_TraceFlags (sampleReference x01)) ≤ 1 ∧
  IsValid (sampleReference x01) = true.
Proof.
  apply (Extract_accepted_reference
           (carrierOf "00-4bf92f3577b34da6a3ce929d0e0e4736-00f067aa0ba902b7-01")
           "00" "4bf92f3577b34da6a3ce929d0e0e4736" "00f067aa0ba902b7" "01" "").
  - reflexivity.
  - by repeat split.
  - apply Accepted_of_extract; [vm_compute|]; reflexivity.
Defined.

(** X3. What [Extract] leaves alone, whatever the carrier holds: the
    current-span slot of the context is never changed; a remote reference
    or a tracestate already in the context is never removed; and a remote
    reference that [Extract] sets is valid with flags 0 or 1. *)
Theorem Extract_preserves
    (ctx ctx' : Context) (carrier : gmap string string) :
  Extract ctx carrier = Done ctx' →
  ctx_currentSpan ctx' = ctx_currentSpan ctx ∧
  (ctx_remoteSpanReference ctx' = ctx_remoteSpanReference ctx ∨
   ∃ sc, ctx_remoteSpanReference ctx' = Some sc ∧ IsValid sc = true ∧
         Byte.to_N (sr_TraceFlags sc) ≤ 1) ∧
  (ctx_tracestate ctx' = ctx_tracestate ctx ∨
   ctx_tracestate ctx' = Some (Get carrier tracestateHeader) ∧
   Get carrier tracestateHeader ≠ "").
Proof.
  destruct (extract_total carrier) as [sc He].
  rewrite (Extract_of_extract _ _ _ He). cbv zeta. intros [= <-].
  assert (IsValid sc = true → Byte.to_N (sr_TraceFlags sc) ≤ 1) as Hfl.
  { intros Hsc.
    destruct (extract_cases carrier)
      as [E | (v & t & s & f & tail & _ & _ & _ & _ & _ & _ & _ & E)];
      rewrite He in E; injection E as ->; [done|].
    apply fromGroups_valid_inv in Hsc as (? & ? & ? & fl & _ & _ & _ & _ & _
                                          & _ & _ & _ & ->).
    apply byte_and_FlagsSampled. }
  split_and!.
  - by destruct (String.eqb _ _), (IsValid sc).
  - destruct (IsValid sc) eqn:Hsc.
    + right. exists sc. split_and!; [|done|by apply Hfl].
      by destruct (String.eqb _ _).
    + left. by destruct (String.eqb _ _).
  - destruct (String.eqb_spec (Get carrier tracestateHeader) "") as [E|E].
    + left. by destruct (IsValid sc).
    + right. split; [|done]. by destruct (IsValid sc).
Qed.

Lemma Extract_preserves_witness :
  ctx_currentSpan
    (ContextWithRemoteSpanReference
       (ContextWithSpan Background otherReference) (sampleReference x01)) =
    Some otherReference.
Proof.
  apply (Extract_preserves (ContextWithSpan Background otherReference) _
           (carrierOf "00-4bf92f3577b34da6a3ce929d0e0e4736-00f067aa0ba902b7-01")).
  vm_compute. reflexivity.
Defined.

(** X4. [Extract] is idempotent: extracting the same carrier into the
    context that [Extract] returned returns that context again. *)
Theorem Extract_idempotent
    (ctx ctx' : Context) (carrier : gmap string string) :
  Extract ctx carrier = Done ctx' → Extract ctx' carrier = Done ctx'.
Proof.
  destruct (extract_total carrier) as [sc He].
  rewrite !(Extract_of_extract _ _ _ He). cbv zeta. intros [= <-].
  f_equal. destruct ctx as [ts cur rem].
  by destruct (String.eqb _ _), (IsValid sc).
Qed.

Lemma Extract_idempotent_witness :
  Extract
    (ContextWithRemoteSpanReference
       (WithTracestate Background "congo=t61rcWkgMzE") (sampleReference x01))
    (<[tracestateHeader := "congo=t61rcWkgMzE"]>
       (carrierOf "00-4bf92f3577b34da6a3ce929d0e0e4736-00f067aa0ba902b7-01")) =
  Done
    (ContextWithRemoteSpanReference
       (WithTracestate Background "congo=t61rcWkgMzE") (sampleReference x01)).
Proof.
  apply (Extract_idempotent Background). vm_compute. reflexivity.
Defined.

(** X5. A carrier with neither header, absent or empty, leaves the
    context as it is. *)
Theorem Extract_no_headers (ctx : Context) (carrier : gmap string string) :
  Get carrier traceparentHeader = "" → Get carrier tracestateHeader = "" →
  Extract ctx carrier = Done ctx.
Proof.
  intros Htp Hts.
  assert (extract carrier = Done zeroSpanReference) as He.
  { apply extract_unmatched. by rewrite Htp. }
  rewrite (Extract_of_extract _ _ _ He), Hts. done.
Qed.

Lemma Extract_no_headers_witness :
  Extract (ContextWithSpan Background otherReference)
    {[ "baggage" := "k=v" ]} =
  Done (ContextWithSpan Background otherReference).
Proof. apply Extract_no_headers; reflexivity. Defined.

(** X6. A newline anywhere after the flags makes [Extract] reject the
    header, for every version: the tail of the expression stops at a
    newline and the expression is anchored at the end of the text. *)
Theorem Extract_newline_rejected
    (carrier : gmap string string) (v t s f tail : string) :
  carries carrier (traceparent v t s f tail) → fieldWidths v t s f →
  someChar isNewline tail = true →
  Rejected carrier.
Proof.
  intros Hc Hw Hnl. apply Rejected_of_extract, extract_unmatched.
  rewrite Hc, (FindStringSubmatch_traceparent _ _ _ _ _ Hw).
  assert (optionalTail tail = false) as ->; [|by rewrite andb_false_r].
  destruct tail as [|c x]; [done|]. simpl in *.
  destruct (Ascii.eqb_spec c "-") as [->|]; [|done]. cbn in Hnl |- *.
  by rewrite dotStarEnd_isNewline, Hnl.
Qed.

Lemma Extract_newline_rejected_witness :
  Rejected
    (carrierOf
       (traceparent "01" "4bf92f3577b34da6a3ce929d0e0e4736"
          "00f067aa0ba902b7" "01" (String "-" (String "010" "x")))).
Proof.
  apply (Extract_newline_rejected _ "01" "4bf92f3577b34da6a3ce929d0e0e4736"
           "00f067aa0ba902b7" "01" (String "-" (String "010" "x"))).
  - reflexivity.
  - by repeat split.
  - reflexivity.
Defined.

(** X7. For every version, version 00 included, a dash-introduced
    segment without a newline after the flags does not change what
    [Extract] returns: the header with the segment gives the context that
    the header without it gives. *)
Theorem Extract_tail_ignored
    (ctx : Context) (carrier : gmap string string) (v t s f x : string) :
  fieldWidths v t s f → someChar isNewline x = false →
  Extract ctx
    (<[traceparentHeader := traceparent v t s f ("-" +:+ x)]> carrier) =
  Extract ctx (<[traceparentHeader := traceparent v t s f ""]> carrier).
Proof.
  intros Hw Hx.
  assert (∀ tail, optionalTail tail = true →
            extract (<[traceparentHeader := traceparent v t s f tail]> carrier) =
            Done (if allChars lowerHex v && allChars lowerHex t &&
                     allChars lowerHex s && allChars lowerHex f
                  then fromGroups v t s f else zeroSpanReference)) as He.
  { intros tail Htail.
    pose proof (FindStringSubmatch_traceparent v t s f tail Hw) as Hm.
    rewrite Htail, andb_true_r in Hm.
    destruct (_ && _).
    - apply extract_matched; [done|].
      unfold Get. by rewrite lookup_insert_eq.
    - apply extract_unmatched. unfold Get. by rewrite lookup_insert_eq. }
  assert (∀ h, Get (<[traceparentHeader := h]> carrier) tracestateHeader =
               Get carrier tracestateHeader) as Hts.
  { intros h. unfold Get. by rewrite lookup_insert_ne. }
  assert (optionalTail ("-" +:+ x) = true) as Htail.
  { apply optionalTail_iff. right. by exists x. }
  by rewrite (Extract_of_extract _ _ _ (He _ Htail)),
             (Extract_of_extract _ _ _ (He "" eq_refl)), !Hts.
Qed.

Lemma Extract_tail_ignored_witness :
  Extract Background
    (<[traceparentHeader :=
         traceparent "02" "4bf92f3577b34da6a3ce929d0e0e4736"
           "00f067aa0ba902b7" "09" ("-" +:+ "XYZxsf09")]> ∅) =
  Extract Background
    (<[traceparentHeader :=
         traceparent "02" "4bf92f3577b34da6a3ce929d0e0e4736"
           "00f067aa0ba902b7" "09" ""]> ∅).
Proof.
  apply Extract_tail_ignored; [by repeat split | reflexivity].
Defined.

(** X8. Versions 1 to 254 are read leniently: whatever the flags byte,
    a header that is otherwise acceptable is accepted, with the flags
    masked to the sampled bit. *)
Theorem Extract_later_version_any_flags
    (carrier : gmap string string) (v t s f tail : string) (ver fl : byte) :
  carries carrier (traceparent v t s f tail) → fieldWidths v t s f →
  allChars lowerHex v = true → allChars lowerHex t = true →
  allChars lowerHex s = true →
  hex.DecodeString v = Some [ver] →
  0 < Byte.to_N ver → Byte.to_N ver ≤ 254 →
  allChars zeroDigit t = false → allChars zeroDigit s = false →
  f = hex.EncodeToString [fl] →
  (tail = "" ∨ ∃ x, tail = "-" +:+ x ∧ someChar isNewline x = false) →
  ∃ sc, Accepted carrier sc ∧
        sr_TraceFlags sc = byte_and fl FlagsSampled.
Proof.
  intros Hc Hw Hv Ht Hs Hver Hpos Hmax Hzt Hzs -> Htail%optionalTail_iff.
  destruct (extract_acceptable carrier v t s (hex.EncodeToString [fl]) tail
              ver fl)
    as (tid & sid & _ & _ & Hvalid & He); try done.
  - apply lowerHex_EncodeToString.
  - apply DecodeString_EncodeToString.
  - lia.
  - eexists. split; [by apply (Accepted_of_extract _ _ He)|done].
Qed.

Lemma Extract_later_version_any_flags_witness :
  ∃ sc,
    Accepted
      (carrierOf "fe-4bf92f3577b34da6a3ce929d0e0e4736-00f067aa0ba902b7-fe")
      sc ∧
    sr_TraceFlags sc = byte_and xfe FlagsSampled.
Proof.
  apply (Extract_later_version_any_flags _
           "fe" "4bf92f3577b34da6a3ce929d0e0e4736" "00f067aa0ba902b7"
           (hex.EncodeToString [xfe]) "" xfe xfe);
    first [ reflexivity | by repeat split | by vm_compute | by left ].
Defined.

End ExtractProperties.

(** ** What [Inject] writes *)

Section InjectProperties.

Lemma allChars_zeroDigit_EncodeToString_valid {n} (v : vec byte n) :
  negb (allZero (vec_to_list v)) = true →
  allChars zeroDigit (hex.EncodeToString (vec_to_list v)) = false.
Proof.
  rewrite allZero_EncodeToString. by intros ?%negb_true_iff.
Qed.

(** X9. For a valid current span reference, [Inject] writes the
    [traceparent] of that reference: version [00], the trace identifier of
    the reference as 32 lowercase hexadecimal digits, its span identifier
    as 16, then its flags masked to the sampled bit, and nothing after
    them.  The identifier fields decode back to the identifiers of the
    reference; the flags field is [01] when the sampled bit of the
    reference is set and [00] when it is not; the header is exactly 55
    characters long, and it is one that [Extract] accepts. *)
Theorem Inject_writes_acceptable
    (ctx : Context) (carrier : gmap string string) :
  IsValid (SpanFromContext_SpanReference ctx) = true →
  let sc := SpanFromContext_SpanReference ctx in
  let t := TraceID_String (sr_TraceID sc) in
  let s := SpanID_String (sr_SpanID sc) in
  let f := hex.EncodeToString [byte_and (sr_TraceFlags sc) FlagsSampled] in
  Inject ctx carrier !! traceparentHeader =
    Some (traceparent "00" t s f "") ∧
  TraceIDFromHex t = Some (sr_TraceID sc) ∧
  SpanIDFromHex s = Some (sr_SpanID sc) ∧
  (f = "01" ↔ N.testbit (Byte.to_N (sr_TraceFlags sc)) 0 = true) ∧
  (f = "00" ↔ N.testbit (Byte.to_N (sr_TraceFlags sc)) 0 = false) ∧
  fieldWidths "00" t s f ∧
  String.length (traceparent "00" t s f "") = 55%nat ∧
  Acceptable (traceparent "00" t s f "").
Proof.
  intros Hv. pose proof Hv as [Htv Hsv]%andb_true_iff. cbv zeta.
  set (sc := SpanFromContext_SpanReference ctx) in *.
  set (fl := byte_and (sr_TraceFlags sc) FlagsSampled).
  assert (fieldWidths "00" (TraceID_String (sr_TraceID sc))
            (SpanID_String (sr_SpanID sc)) (hex.EncodeToString [fl])) as Hw.
  { unfold fieldWidths, TraceID_String, SpanID_String.
    by rewrite !length_EncodeToString, !length_vec_to_list. }
  assert (Byte.to_N fl ≤ 1) as Hfl by apply byte_and_FlagsSampled.
  split_and!.
  - pose proof (Inject_traceparent ctx carrier Hv) as Hh. cbv zeta in Hh.
    fold sc fl in Hh. rewrite <- Hh. unfold Get.
    unfold Inject. cbv zeta. fold sc. rewrite Hv. cbn [negb].
    unfold Set_. by rewrite lookup_insert_eq.
  - apply TraceIDFromHex_String.
  - apply SpanIDFromHex_String.
  - subst fl. generalize (sr_TraceFlags sc). intros b.
    destruct b; vm_compute; split; congruence.
  - subst fl. generalize (sr_TraceFlags sc). intros b.
    destruct b; vm_compute; split; congruence.
  - done.
  - destruct Hw as (Hv' & Ht & Hs & Hf). unfold traceparent.
    rewrite !length_app, Ht, Hs, Hf. done.
  - exists "00", (TraceID_String (sr_TraceID sc)),
           (SpanID_String (sr_SpanID sc)), (hex.EncodeToString [fl]), "",
           x00, fl.
    unfold TraceID_String, SpanID_String in *.
    rewrite !lowerHex_EncodeToString, DecodeString_EncodeToString.
    rewrite !allChars_zeroDigit_EncodeToString_valid by done.
    split_and!; try done; [by left | lia].
Qed.

Lemma Inject_writes_acceptable_witness :
  Inject (ContextWithSpan Background (sampleReference xff)) ∅
    !! traceparentHeader =
    Some "00-4bf92f3577b34da6a3ce929d0e0e4736-00f067aa0ba902b7-01" ∧
  Acceptable "00-4bf92f3577b34da6a3ce929d0e0e4736-00f067aa0ba902b7-01".
Proof.
  pose proof
    (Inject_writes_acceptable
       (ContextWithSpan Background (sampleReference xff)) ∅ eq_refl)
    as (H & _ & _ & _ & _ & _ & _ & Ha).
  split; [exact H | exact Ha].
Defined.

(** X10. [Inject] writes no key but the two of [Fields], and removes
    none.  When the current span reference is invalid it leaves the
    [traceparent] of the carrier as it was, so a header already there
    stays; when the context holds no tracestate it leaves the [tracestate]
    of the carrier as it was. *)
Theorem Inject_keys
    (ctx : Context) (carrier : gmap string string) (key : string) :
  (key ∉ Fields → Inject ctx carrier !! key = carrier !! key) ∧
  (is_Some (carrier !! key) → is_Some (Inject ctx carrier !! key)) ∧
  (IsValid (SpanFromContext_SpanReference ctx) = false →
   Inject ctx carrier !! traceparentHeader = carrier !! traceparentHeader) ∧
  (ctx_tracestate ctx = None →
   Inject ctx carrier !! tracestateHeader = carrier !! tracestateHeader).
Proof.
  unfold Inject, Set_, Fields. cbv zeta. split_and!.
  - intros Hk.
    assert (key ≠ traceparentHeader ∧ key ≠ tracestateHeader) as [H1 H2].
    { split; intros ->; apply Hk; set_solver. }
    destruct (ctx_tracestate ctx), (negb _); by rewrite ?lookup_insert_ne.
  - intros Hsome.
    destruct (ctx_tracestate ctx), (negb _);
      repeat (apply lookup_insert_is_Some'; right); done.
  - intros ->. cbn [negb].
    destruct (ctx_tracestate ctx); by rewrite ?lookup_insert_ne.
  - intros ->. destruct (negb _); by rewrite ?lookup_insert_ne.
Qed.

Lemma Inject_keys_witness :
  Inject (WithTracestate Background "congo=t61rcWkgMzE")
    (carrierOf "00-stale") !! traceparentHeader = Some "00-stale".
Proof.
  apply (Inject_keys (WithTracestate Background "congo=t61rcWkgMzE")
           (carrierOf "00-stale") traceparentHeader).
  reflexivity.
Defined.

(** X11. The tracestate passes through: when [Extract] reads a
    non-empty [tracestate] from a carrier, [Inject] of the returned context
    writes that very string as the [tracestate] of any carrier. *)
Theorem tracestate_passes_through
    (ctx ctx' : Context) (carrier carrier' : gmap string string) :
  Get carrier tracestateHeader ≠ "" →
  Extract ctx carrier = Done ctx' →
  Get (Inject ctx' carrier') tracestateHeader = Get carrier tracestateHeader.
Proof.
  intros Hst. destruct (extract_total carrier) as [sc He].
  rewrite (Extract_of_extract _ _ _ He). cbv zeta.
  destruct (String.eqb_spec (Get carrier tracestateHeader) "") as [|_];
    [done|].
  intros [= <-]. unfold Inject, Get at 1, Set_. cbv zeta.
  assert (ctx_tracestate
            (if IsValid sc
             then ContextWithRemoteSpanReference
                    (WithTracestate ctx (Get carrier tracestateHeader)) sc
             else WithTracestate ctx (Get carrier tracestateHeader)) =
          Some (Get carrier tracestateHeader)) as ->
    by by destruct (IsValid sc).
  destruct (negb _); [by rewrite lookup_insert_eq|].
  rewrite lookup_insert_ne by done. by rewrite lookup_insert_eq.
Qed.

Lemma tracestate_passes_through_witness :
  Get (Inject (WithTracestate Background "congo=t61rcWkgMzE") ∅)
    tracestateHeader = "congo=t61rcWkgMzE".
Proof.
  pose proof (tracestate_passes_through Background
                (WithTracestate Background "congo=t61rcWkgMzE")
                {[ tracestateHeader := "congo=t61rcWkgMzE" ]} ∅) as W.
  assert (Get ({[ tracestateHeader := "congo=t61rcWkgMzE" ]}
               : gmap string string) tracestateHeader =
          "congo=t61rcWkgMzE") as E by (vm_compute; reflexivity).
  rewrite E in W. apply W; [discriminate | vm_compute; reflexivity].
Defined.

(** X12. From text to reference and back: when [Extract] accepts a
    header as a reference, [Inject] of that reference writes the header
    normalised to version [00], the same trace and span fields, the flags
    masked to the sampled bit, and no tail; a header already of that form
    is written back unchanged. *)
Theorem Extract_Inject_normalises
    (ctx : Context) (carrier carrier' : gmap string string)
    (v t s f tail : string) (sc : SpanReference) :
  carries carrier (traceparent v t s f tail) → fieldWidths v t s f →
  Accepted carrier sc →
  ctx_currentSpan ctx = Some sc →
  Get (Inject ctx carrier') traceparentHeader =
    traceparent "00" t s (hex.EncodeToString [sr_TraceFlags sc]) "" ∧
  (v = "00" → (f = "00" ∨ f = "01") → tail = "" →
   Get (Inject ctx carrier') traceparentHeader = traceparent v t s f tail).
Proof.
  intros Hc Hw Ha Hctx.
  destruct (Accepted_fields _ _ _ _ _ _ _ Hc Hw Ha)
    as (ver & fl & _ & Ht & Hs & _ & _ & _ & _ & Htid & Hsid & Hfl & _
        & Hflags & Hvalid).
  pose proof Hw as (_ & Hlt & Hls & _).
  destruct (TraceIDFromHex_lowerHex t Hlt Ht) as (tid & Htid' & Htxt & _).
  destruct (SpanIDFromHex_lowerHex s Hls Hs) as (sid & Hsid' & Hsxt & _).
  rewrite Htid in Htid'. injection Htid' as <-.
  rewrite Hsid in Hsid'. injection Hsid' as <-.
  assert (SpanFromContext_SpanReference ctx = sc) as Hsc.
  { unfold SpanFromContext_SpanReference. by rewrite Hctx. }
  assert (Get (Inject ctx carrier') traceparentHeader =
          traceparent "00" t s (hex.EncodeToString [sr_TraceFlags sc]) "")
    as Hnorm.
  { rewrite Inject_traceparent by by rewrite Hsc.
    cbv zeta. rewrite Hsc, Htxt, Hsxt, Hflags.
    by destruct (byte_and_FlagsSampled fl) as [_ ->]. }
  split; [done|]. intros -> Hf ->. rewrite Hnorm, Hflags.
  destruct Hf as [-> | ->]; injection Hfl as <-; reflexivity.
Qed.

Lemma Extract_Inject_normalises_witness :
  Get (Inject (ContextWithSpan Background (sampleReference x01)) ∅)
    traceparentHeader =
    traceparent "00" "4bf92f3577b34da6a3ce929d0e0e4736" "00f067aa0ba902b7"
      (hex.EncodeToString [x01]) "".
Proof.
  apply (Extract_Inject_normalises
           (ContextWithSpan Background (sampleReference x01))
           (carrierOf
              "02-4bf92f3577b34da6a3ce929d0e0e4736-00f067aa0ba902b7-09-XYZ")
           ∅ "02" "4bf92f3577b34da6a3ce929d0e0e4736" "00f067aa0ba902b7"
           "09" "-XYZ" (sampleReference x01)).
  - reflexivity.
  - by repeat split.
  - apply Accepted_of_extract; [vm_compute|]; reflexivity.
  - reflexivity.
Defined.

End InjectProperties.

(** * Further properties of parent resolution *)

Section ParentProperties.

(** X13. When a span gets a parent: [GetSpanReferenceAndLinks] returns
    a valid parent exactly when the context is not ignored and holds a
    valid local or remote reference; it reports the parent as remote
    exactly when the context is not ignored, the local reference is invalid
    and the remote one valid, and then the parent is the remote reference
    of the context; links are returned only when the context is ignored. *)
Theorem GetSpanReferenceAndLinks_parent_iff
    (ctx : Context) (ignoreContext : bool) :
  let local := SpanFromContext_SpanReference ctx in
  let remote := RemoteSpanReferenceFromContext ctx in
  let result := parent.GetSpanReferenceAndLinks ctx ignoreContext in
  (IsValid result.1.1 = true ↔
   ignoreContext = false ∧ (IsValid local = true ∨ IsValid remote = true)) ∧
  (result.1.2 = true ↔
   ignoreContext = false ∧ IsValid local = false ∧ IsValid remote = true) ∧
  (result.1.2 = true → ctx_remoteSpanReference ctx = Some result.1.1) ∧
  (result.2 ≠ [] → ignoreContext = true).
Proof.
  cbv zeta. unfold parent.GetSpanReferenceAndLinks. cbv zeta.
  destruct ignoreContext.
  { cbn [fst snd]. rewrite IsValid_zeroSpanReference.
    split_and!; intuition congruence. }
  destruct (IsValid (SpanFromContext_SpanReference ctx)) eqn:El.
  { cbn [fst snd]. rewrite El. split_and!; intuition congruence. }
  destruct (IsValid (RemoteSpanReferenceFromContext ctx)) eqn:Er;
    cbn [fst snd].
  - rewrite Er. split_and!; try done; [intuition congruence|].
    intros _. unfold RemoteSpanReferenceFromContext in *.
    by destruct (ctx_remoteSpanReference ctx).
  - rewrite IsValid_zeroSpanReference. split_and!; try done; intuition congruence.
Qed.

Lemma GetSpanReferenceAndLinks_parent_iff_witness :
  ctx_remoteSpanReference
    (ContextWithRemoteSpanReference Background otherReference) =
  Some otherReference.
Proof.
  apply (GetSpanReferenceAndLinks_parent_iff
           (ContextWithRemoteSpanReference Background otherReference) false).
  reflexivity.
Defined.

(** X14. [Extract] followed by parent resolution, as a server does on an
    incoming request: a valid current span of the context stays the
    parent, as a local one; failing that, an accepted header gives the
    parent, as a remote one, and a rejected header gives what the context
    gave before.  No links come out. *)
Theorem Extract_then_GetSpanReferenceAndLinks
    (ctx ctx' : Context) (carrier : gmap string string) :
  Extract ctx carrier = Done ctx' →
  (IsValid (SpanFromContext_SpanReference ctx) = true →
   parent.GetSpanReferenceAndLinks ctx' false =
     (SpanFromContext_SpanReference ctx, false, [])) ∧
  (IsValid (SpanFromContext_SpanReference ctx) = false →
   ∀ sc, Accepted carrier sc →
   parent.GetSpanReferenceAndLinks ctx' false = (sc, true, [])) ∧
  (Rejected carrier →
   parent.GetSpanReferenceAndLinks ctx' false =
     parent.GetSpanReferenceAndLinks ctx false).
Proof.
  intros HE. pose proof (Extract_currentSpan ctx ctx' carrier HE) as Hcur.
  assert (SpanFromContext_SpanReference ctx' =
          SpanFromContext_SpanReference ctx) as Hlocal.
  { unfold SpanFromContext_SpanReference. by rewrite Hcur. }
  unfold parent.GetSpanReferenceAndLinks. cbv zeta. rewrite Hlocal.
  split_and!.
  - by intros ->.
  - intros -> sc Ha. destruct (Ha ctx) as (ctx2 & HE2 & Hrem).
    rewrite HE in HE2. injection HE2 as <-.
    unfold RemoteSpanReferenceFromContext. rewrite Hrem. simpl.
    by rewrite (Accepted_valid _ _ Ha).
  - intros Hr. destruct (Hr ctx) as (ctx2 & HE2 & Hrem).
    rewrite HE in HE2. injection HE2 as <-.
    unfold RemoteSpanReferenceFromContext. by rewrite Hrem.
Qed.

Lemma Extract_then_GetSpanReferenceAndLinks_witness :
  parent.GetSpanReferenceAndLinks
    (ContextWithRemoteSpanReference Background (sampleReference x01)) false =
  (sampleReference x01, true, []).
Proof.
  apply (Extract_then_GetSpanReferenceAndLinks Background _
           (carrierOf "00-4bf92f3577b34da6a3ce929d0e0e4736-00f067aa0ba902b7-01")).
  - vm_compute. reflexivity.
  - reflexivity.
  - apply Accepted_of_extract; [vm_compute|]; reflexivity.
Defined.

End ParentProperties.

(** * Properties of the OpenTracing bridge *)

(** ** Span references: the parent and the links *)

Import opentracing.

Section BridgeReferences.

Context {BaggageMap : Type}.

Lemma loopBody_foreign state (r : otSpanReference BaggageMap) :
  ReferencedContext BaggageMap r = foreignContext BaggageMap →
  loopBody BaggageMap state r = state.
Proof. intros H. unfold loopBody. destruct state. by rewrite H. Qed.

Lemma loopBody_parent p links (r : otSpanReference BaggageMap) c :
  ReferencedContext BaggageMap r = bridgeContext BaggageMap c →
  loopBody BaggageMap (Some p, links) r =
    (Some p, links ++ [linkOf BaggageMap (ref_Type BaggageMap r, c)]).
Proof. intros H. unfold loopBody. by rewrite H. Qed.

Lemma loopBody_no_parent links (r : otSpanReference BaggageMap) c :
  ReferencedContext BaggageMap r = bridgeContext BaggageMap c →
  loopBody BaggageMap (None, links) r =
    if isChildOf BaggageMap (ref_Type BaggageMap r, c)
    then (Some c, links)
    else (None, links ++ [linkOf BaggageMap (ref_Type BaggageMap r, c)]).
Proof. intros H. unfold loopBody. by rewrite H. Qed.

Lemma bridgeReferences_cons (r : otSpanReference BaggageMap) refs :
  bridgeReferences BaggageMap (r :: refs) =
    match ReferencedContext BaggageMap r with
    | bridgeContext _ c =>
        (ref_Type BaggageMap r, c) :: bridgeReferences BaggageMap refs
    | foreignContext _ => bridgeReferences BaggageMap refs
    end.
Proof.
  unfold bridgeReferences. cbn [omap list_omap].
  by destruct (ReferencedContext BaggageMap r).
Qed.

(** Once a parent is found, every later reference of the bridge is a
    link. *)
Lemma loop_with_parent references p links :
  fold_left (loopBody BaggageMap) references (Some p, links) =
    (Some p,
     links ++ (linkOf BaggageMap <$> bridgeReferences BaggageMap references)).
Proof.
  revert links; induction references as [|r refs IH]; intros links.
  - by rewrite app_nil_r.
  - cbn [fold_left]. rewrite bridgeReferences_cons.
    destruct (ReferencedContext BaggageMap r) as [c|] eqn:E.
    + rewrite (loopBody_parent _ _ _ _ E), IH. cbn [fmap list_fmap].
      by rewrite <- app_assoc.
    + by rewrite (loopBody_foreign _ _ E), IH.
Qed.

Lemma loop_without_parent references links :
  fold_left (loopBody BaggageMap) references (None, links) =
    (snd <$> List.find (isChildOf BaggageMap)
               (bridgeReferences BaggageMap references),
     links ++ (linkOf BaggageMap <$>
               dropFirst (isChildOf BaggageMap)
                 (bridgeReferences BaggageMap references))).
Proof.
  revert links; induction references as [|r refs IH]; intros links.
  - by rewrite app_nil_r.
  - cbn [fold_left]. rewrite bridgeReferences_cons.
    destruct (ReferencedContext BaggageMap r) as [c|] eqn:E.
    + rewrite (loopBody_no_parent _ _ _ E). cbn [List.find dropFirst].
      destruct (isChildOf BaggageMap (ref_Type BaggageMap r, c)).
      * by rewrite loop_with_parent.
      * rewrite IH. cbn [fmap list_fmap]. by rewrite <- app_assoc.
    + by rewrite (loopBody_foreign _ _ E), IH.
Qed.

Lemma otSpanReferenceTypeToString_ChildOfRef refType :
  otSpanReferenceTypeToString refType = "extra-child-of" →
  refType = ChildOfRef.
Proof.
  unfold otSpanReferenceTypeToString, Sprintf_unknown_d.
  destruct (Z.eqb_spec refType ChildOfRef); [done|].
  destruct (Z.eqb_spec refType FollowsFromRef); discriminate.
Qed.

Lemma dropFirst_elem {A} (p : A → bool) (l : list A) (x : A) :
  x ∈ dropFirst p l → p x = true → is_Some (List.find p l).
Proof.
  induction l as [|y l IH]; simpl; [by intros ?%elem_of_nil|].
  destruct (p y) eqn:Hy; [by eauto|].
  intros [->|Hx]%elem_of_cons Hp; [congruence|]. by apply IH.
Qed.


(** X16. A link tagged [extra-child-of] is only made after a parent was
    found: when such a link is returned, a parent is returned too, as the
    comment in [otSpanReferenceTypeToString] says. *)
Theorem extra_child_of_has_parent
    (references : list (otSpanReference BaggageMap)) (l : Link) :
  l ∈ (otSpanReferencesToParentAndLinks BaggageMap references).2 →
  Attributes l = [label_String "ot-span-reference-type" "extra-child-of"] →
  is_Some (otSpanReferencesToParentAndLinks BaggageMap references).1.
Proof.
  unfold otSpanReferencesToParentAndLinks. rewrite loop_without_parent.
  cbn [fst snd app]. intros ([ty c] & -> & Hin)%list_elem_of_fmap Hattr.
  cbn in Hattr. injection Hattr as Hty.
  apply otSpanReferenceTypeToString_ChildOfRef in Hty as ->.
  destruct (dropFirst_elem _ _ _ Hin eq_refl) as [r ->]. by eexists.
Qed.

(** X17. The reference types are told apart by their attribute:
    [otSpanReferenceTypeToString] maps different types to different
    texts, the unnamed ones included. *)
Theorem otSpanReferenceTypeToString_inj (a b : Z) :
  otSpanReferenceTypeToString a = otSpanReferenceTypeToString b → a = b.
Proof.
  unfold otSpanReferenceTypeToString, Sprintf_unknown_d.
  destruct (Z.eqb_spec a ChildOfRef) as [->|Ha],
           (Z.eqb_spec b ChildOfRef) as [->|Hb]; try done.
  - destruct (Z.eqb_spec b FollowsFromRef); discriminate.
  - destruct (Z.eqb_spec a FollowsFromRef); discriminate.
  - destruct (Z.eqb_spec a FollowsFromRef) as [->|Ha'],
             (Z.eqb_spec b FollowsFromRef) as [->|Hb']; try done;
      try discriminate.
    intros H%(inj (String.app "unknown-")). by apply (inj pretty).
Qed.

Lemma otSpanReferenceTypeToString_inj_witness : (7 = 7)%Z.
Proof. apply otSpanReferenceTypeToString_inj. reflexivity. Defined.

End BridgeReferences.

Lemma extra_child_of_has_parent_witness :
  is_Some
    (otSpanReferencesToParentAndLinks unit
       [mkOtSpanReference unit FollowsFromRef
          (bridgeContext unit (mkBridgeSpanReference unit () otherReference));
        mkOtSpanReference unit ChildOfRef (foreignContext unit);
        mkOtSpanReference unit ChildOfRef
          (bridgeContext unit (mkBridgeSpanReference unit () zeroSpanReference));
        mkOtSpanReference unit ChildOfRef
          (bridgeContext unit
             (mkBridgeSpanReference unit () (sampleReference x01)))]).1.
Proof.
  apply (extra_child_of_has_parent (BaggageMap := unit) _
           (mkLink (sampleReference x01)
              [label_String "ot-span-reference-type" "extra-child-of"]));
    [|reflexivity].
  vm_compute. apply list_elem_of_In. right. left. reflexivity.
Defined.


(** ** The warn-once access to the OpenTelemetry tracer *)

Section BridgeTracerProperties.

Context {Tracer Handler : Type}.

Lemma step_warnOnce (t : BridgeTracer Tracer Handler) (c : call Tracer Handler) :
  warnOnce _ _ (setTracer _ _ t) = true →
  warnOnce _ _ (setTracer _ _ (step _ _ t c).1) = true ∧
  (step _ _ t c).2 = [].
Proof.
  intros Hw. destruct c as [|tr|h]; cbn; [|done..].
  destruct t as [[set tr h once] wh wo]. unfold tracer. cbn in *.
  rewrite Hw. by destruct set.
Qed.

Lemma step_at_most_one (t : BridgeTracer Tracer Handler) (c : call Tracer Handler) :
  (step _ _ t c).2 = [] ∨
  (length (step _ _ t c).2 = 1%nat ∧
   warnOnce _ _ (setTracer _ _ (step _ _ t c).1) = true).
Proof.
  destruct c as [|tr|h]; cbn; [|by left..].
  destruct t as [[set tr h once] wh wo]. unfold tracer. cbn.
  destruct set, once, h; cbn; eauto.
Qed.

Lemma run_cons (t : BridgeTracer Tracer Handler) c calls :
  run _ _ t (c :: calls) =
    ((run _ _ (step _ _ t c).1 calls).1,
     (step _ _ t c).2 ++ (run _ _ (step _ _ t c).1 calls).2).
Proof.
  cbn [run]. destruct (step _ _ t c) as [t' w]. cbn [fst snd].
  by destruct (run _ _ t' calls).
Qed.

Lemma run_warnOnce (t : BridgeTracer Tracer Handler) calls :
  warnOnce _ _ (setTracer _ _ t) = true → (run _ _ t calls).2 = [].
Proof.
  revert t; induction calls as [|c calls IH]; intros t Hw; [done|].
  rewrite run_cons. cbn [snd].
  destruct (step_warnOnce t c Hw) as [Hw' ->]. by rewrite IH.
Qed.

Lemma step_isSet (t : BridgeTracer Tracer Handler) (c : call Tracer Handler) :
  isSet _ _ (setTracer _ _ t) = true →
  isSet _ _ (setTracer _ _ (step _ _ t c).1) = true ∧ (step _ _ t c).2 = [].
Proof.
  intros Hs. destruct c as [|tr|h]; cbn; [|done..].
  unfold tracer. by rewrite Hs.
Qed.

(** After the warning, a call of [tracer] changes nothing. *)
Lemma run_tracer_fired (t : BridgeTracer Tracer Handler) (k : nat) :
  warnOnce _ _ (setTracer _ _ t) = true →
  run _ _ t (replicate k (callTracer _ _)) = (t, []).
Proof.
  intros Hw. induction k as [|k IH]; [done|].
  cbn [replicate]. rewrite run_cons.
  assert (step _ _ t (callTracer _ _) = (t, [])) as ->.
  { destruct t as [[set tr h once] wh wo]. cbn in *. unfold tracer. cbn.
    rewrite Hw. by destruct set. }
  cbn [fst snd]. by rewrite IH.
Qed.

(** X18. The warning of [bridgeSetTracer.tracer] is given at most once:
    over any sequence of calls that obtain the tracer or set the tracer or
    the warning handler, from any state of the bridge, the warning handler
    of [setTracer] is called at most once, and not at all once [warnOnce]
    has fired. *)
Theorem tracer_warns_at_most_once
    (t : BridgeTracer Tracer Handler) (calls : list (call Tracer Handler)) :
  (length (run _ _ t calls).2 ≤ 1)%nat ∧
  (warnOnce _ _ (setTracer _ _ t) = true → (run _ _ t calls).2 = []).
Proof.
  split; [|apply run_warnOnce].
  revert t; induction calls as [|c calls IH]; intros t; [cbn; lia|].
  rewrite run_cons. cbn [snd]. rewrite List.length_app.
  destruct (step_at_most_one t c) as [-> | [Hlen Hw]].
  - apply IH.
  - rewrite Hlen, (run_warnOnce _ calls Hw). cbn. lia.
Qed.

(** Once the tracer is set, the calls are silent and keep it set, and the
    tracer held is the one that was set last. *)
Lemma run_isSet
    (t : BridgeTracer Tracer Handler) (calls : list (call Tracer Handler)) :
  isSet _ _ (setTracer _ _ t) = true →
  (run _ _ t calls).2 = [] ∧
  isSet _ _ (setTracer _ _ (run _ _ t calls).1) = true ∧
  otelTracer _ _ (setTracer _ _ (run _ _ t calls).1) =
    lastTracerSet calls (otelTracer _ _ (setTracer _ _ t)).
Proof.
  revert t; induction calls as [|c calls IH]; intros t Hs; [done|].
  rewrite run_cons. cbn [fst snd].
  destruct (step_isSet t c Hs) as [Hs' Hw]. rewrite Hw.
  destruct (IH _ Hs') as (IH1 & IH2 & IH3).
  split_and!; [done..|]. rewrite IH3.
  destruct c as [|tr|h]; cbn; [|done..].
  unfold tracer. by rewrite Hs.
Qed.

(** X19. Once an OpenTelemetry tracer is set, [tracer] never warns and
    never panics, and returns the tracer that was set last: after
    [SetOpenTelemetryTracer] with the tracer [tr], on any bridge, and any
    later sequence of calls, no warning handler has been called, the
    tracer is still set, and [tracer] returns, without a warning and
    without a change of state, the tracer given to the last
    [SetOpenTelemetryTracer] among those calls, or [tr] itself when there
    is none among them; in particular [tracer] right after
    [SetOpenTelemetryTracer] returns [tr]. *)
Theorem tracer_set_is_silent
    (t : BridgeTracer Tracer Handler) (tr : Tracer)
    (calls : list (call Tracer Handler)) :
  let after := run _ _ (SetOpenTelemetryTracer _ _ t tr) calls in
  after.2 = [] ∧
  isSet _ _ (setTracer _ _ after.1) = true ∧
  tracer _ _ (setTracer _ _ after.1) =
    (setTracer _ _ after.1, [], Done (lastTracerSet calls tr)) ∧
  tracer _ _ (setTracer _ _ (SetOpenTelemetryTracer _ _ t tr)) =
    (setTracer _ _ (SetOpenTelemetryTracer _ _ t tr), [], Done tr).
Proof.
  cbv zeta.
  destruct (run_isSet (SetOpenTelemetryTracer _ _ t tr) calls eq_refl)
    as (Hw & Hs & Ht).
  split_and!; [done..| |done].
  unfold tracer. by rewrite Hs, Ht.
Qed.

(** X20. A bridge made by [NewBridgeTracer] has no warning handler in
    [setTracer]: when neither [SetOpenTelemetryTracer] nor
    [SetWarningHandler] has been called, the first call of [tracer] panics
    on the nil handler, and every later call returns the no-op tracer
    without a warning.  After [SetWarningHandler] with a handler, any
    number of calls of [tracer] give that handler the warning exactly
    once. *)
Theorem NewBridgeTracer_first_tracer
    (noopTracer : Tracer) (doNothing handler : Handler) (n : nat) :
  let fresh := NewBridgeTracer Tracer Handler noopTracer doNothing in
  (tracer _ _ (setTracer _ _ fresh)).2 = Panic "call of nil func" ∧
  tracer _ _ (setTracer _ _ (run _ _ fresh (replicate (S n) (callTracer _ _))).1) =
    (setTracer _ _ (run _ _ fresh (replicate (S n) (callTracer _ _))).1, [],
     Done noopTracer) ∧
  (run _ _ (SetWarningHandler _ _ fresh (Some handler))
     (replicate (S n) (callTracer _ _))).2 =
    [(handler, tracerNotSetWarning)].
Proof.
  cbv zeta. split; [done|]. split.
  - cbn [replicate]. rewrite run_cons. cbn [fst].
    rewrite run_tracer_fired by done. done.
  - cbn [replicate]. rewrite run_cons. cbn [fst snd].
    rewrite run_tracer_fired by done. done.
Qed.

End BridgeTracerProperties.

Lemma tracer_warns_at_most_once_witness :
  (run unit unit
     (mkBridgeTracer unit unit
        (mkBridgeSetTracer unit unit false () (Some ()) true) None false)
     [callTracer unit unit; callSetWarningHandler unit unit (Some ());
      callTracer unit unit]).2 = [].
Proof.
  apply (tracer_warns_at_most_once (Tracer := unit) (Handler := unit)).
  reflexivity.
Defined.

Lemma tracer_set_is_silent_witness :
  let after :=
    run nat unit
      (SetOpenTelemetryTracer nat unit (NewBridgeTracer nat unit 0%nat ())
         7%nat)
      [callTracer nat unit; callSetOpenTelemetryTracer nat unit 9%nat;
       callSetWarningHandler nat unit None; callTracer nat unit] in
  after.2 = [] ∧
  tracer nat unit (setTracer nat unit after.1) =
    (setTracer nat unit after.1, [], Done 9%nat).
Proof.
  cbv zeta.
  pose proof
    (tracer_set_is_silent (Tracer := nat) (Handler := unit)
       (NewBridgeTracer nat unit 0%nat ()) 7%nat
       [callTracer nat unit; callSetOpenTelemetryTracer nat unit 9%nat;
        callSetWarningHandler nat unit None; callTracer nat unit])
    as (Hw & _ & Ht & _).
  split; [exact Hw | exact Ht].
Defined.

